(** * SecureCacheNest: the item pipeline, the event bus and the cache

    A shallow embedding of [src/secure-cache-nest.js].  The file holds two
    listings of the same module [SimpleStorage]: the first keeps an action
    log ([logs], [logAction]) and ends with the export, the second has no
    log and writes synced items as they are.  Both are embedded, the second
    for the functions that read differently.

    What is modelled and how:
    - JavaScript values are the JSON values and [undefined]; a number is an
      integer ([Z]) printed in plain decimal, so fractions, exponents and
      the rounding of large numbers are outside the embedding;
    - a string is a sequence of code units below 256;
    - [JSON.stringify] and [JSON.parse] are written out on strings;
    - [localStorage] and [sessionStorage], reached through their methods,
      are finite maps; [memoryCache], [history] and [eventListeners] are
      plain objects, which also answer the names every object inherits
      ([toString], [__proto__], ...);
    - the options of [setItem] and [getItem] are data, never functions;
    - [LZString] and [CryptoJS] are a [Host] the code is parameterised by;
    - the clock is an argument [now] of a call (one reading per call);
    - subscribers are functions on a state [U] of their own that complete
      or throw; they do not call back into the module;
    - a call that leaves what is modelled (a fraction read from a text, a
      number compared with a string) has the outcome [Beyond];
    - [console.log] has no effect on the module and is left out, as are the
      storage quota, the session timer, IndexedDB and the network and file
      helpers;
    - for the rest of the first listing, [CryptoJS.AES.encrypt] is a
      [Cipher] with its salt as an argument, the order of
      [Object.keys(localStorage)] is a [KeyOrder], and [history] and
      [sessionStorage] sit beside the module's state in a [Page]. *)

From Stdlib Require Import ZArith String Ascii List Decimal DecimalString
  DecimalPos DecimalZ DecimalFacts Lia Bool.
From stdpp Require Import base option list sorting gmap strings.

Local Open Scope Z_scope.
Local Open Scope string_scope.
Local Open Scope list_scope.

(** ** JavaScript values *)

#[warnings="-register-all"]
Inductive value : Type :=
| VUndefined
| VNull
| VBool (b : bool)
| VNum (n : Z)
| VStr (s : string)
| VArr (elems : list value)
| VObj (props : list (string * value)).

(** Induction that reaches inside arrays and objects. *)
Section value_induction.
Variable P : value -> Prop.
Hypothesis Hundef : P VUndefined.
Hypothesis Hnull : P VNull.
Hypothesis Hbool : forall b, P (VBool b).
Hypothesis Hnum : forall n, P (VNum n).
Hypothesis Hstr : forall s, P (VStr s).
Hypothesis Harr : forall l, Forall P l -> P (VArr l).
Hypothesis Hobj : forall ps, Forall (fun kv => P (snd kv)) ps -> P (VObj ps).

Fixpoint value_rect_deep (v : value) : P v :=
  match v with
  | VUndefined => Hundef
  | VNull => Hnull
  | VBool b => Hbool b
  | VNum n => Hnum n
  | VStr s => Hstr s
  | VArr l =>
      Harr l ((fix go (l : list value) : Forall P l :=
                 match l with
                 | [] => @List.Forall_nil _ P
                 | x :: l' => @List.Forall_cons _ P x l' (value_rect_deep x) (go l')
                 end) l)
  | VObj ps =>
      Hobj ps ((fix go (ps : list (string * value))
                  : Forall (fun kv => P (snd kv)) ps :=
                  match ps with
                  | [] => @List.Forall_nil _ _
                  | kv :: ps' =>
                      @List.Forall_cons _ _ kv ps' (value_rect_deep (snd kv)) (go ps')
                  end) ps)
  end.
End value_induction.

(** [if (v)], [!v], [a && b], [a || b] look at this. *)
Definition truthy (v : value) : bool :=
  match v with
  | VUndefined | VNull => false
  | VBool b => b
  | VNum n => negb (n =? 0)%Z
  | VStr s => negb (String.eqb s "")
  | VArr _ | VObj _ => true
  end.

(** [a || b] *)
Definition js_or (a b : value) : value := if truthy a then a else b.

(** Decimal text of an integer, as [String(n)] and [JSON.stringify(n)] give
    it. *)
Definition string_of_Z (n : Z) : string := NilZero.string_of_int (Z.to_int n).

Fixpoint join (sep : string) (l : list string) : string :=
  match l with
  | [] => ""
  | [x] => x
  | x :: l' => x +:+ sep +:+ join sep l'
  end.

(** [String(v)] where the conversion returns ([stringable] below): what
    [localStorage.setItem] stores and what [JSON.parse] reads when it is
    handed something that is not a string. *)
Fixpoint ToString (v : value) : string :=
  match v with
  | VUndefined => "undefined"
  | VNull => "null"
  | VBool true => "true"
  | VBool false => "false"
  | VNum n => string_of_Z n
  | VStr s => s
  | VArr l =>
      join "," (List.map (fun e => match e with
                                   | VUndefined | VNull => ""
                                   | _ => ToString e
                                   end) l)
  | VObj _ => "[object Object]"
  end.

(** [o.name] for the two names the module reads, [expiry] and [value]:
    neither is inherited by any value, so only an object's own property
    answers. *)
Fixpoint assoc (name : string) (ps : list (string * value)) : option value :=
  match ps with
  | [] => None
  | (k, v) :: ps' => if String.eqb k name then Some v else assoc name ps'
  end.

Definition get_prop (v : value) (name : string) : value :=
  match v with
  | VObj ps => match assoc name ps with Some x => x | None => VUndefined end
  | _ => VUndefined
  end.

(** Whether [String(v)] returns.  The conversion of an object calls its
    [toString]; no value of the embedding is a function, so an object with
    a [toString] of its own has none to call (nor a [valueOf] that gives a
    primitive) and the conversion throws [TypeError].  An array converts
    its elements. *)
Fixpoint stringable (v : value) : bool :=
  match v with
  | VArr l => forallb stringable l
  | VObj ps => match assoc "toString" ps with Some _ => false | None => true end
  | _ => true
  end.

(** Writing a property: an existing one keeps its place. *)
Fixpoint obj_set (ps : list (string * value)) (k : string) (v : value)
  : list (string * value) :=
  match ps with
  | [] => [(k, v)]
  | (k', v') :: ps' =>
      if String.eqb k' k then (k', v) :: ps' else (k', v') :: obj_set ps' k v
  end.

(** ** Plain objects used as dictionaries

    [memoryCache] and [history] are objects [{}], read and written as
    [o[key]].  Such an object answers, besides the entries of its own, the
    names every object inherits from [Object.prototype]: functions, and
    under [__proto__] the prototype itself.  None of them is a value of the
    embedding: a read that reaches one gives [Member]. *)

Definition inherited_names : list string :=
  ["constructor"; "hasOwnProperty"; "isPrototypeOf"; "propertyIsEnumerable";
   "toLocaleString"; "toString"; "valueOf"; "__defineGetter__";
   "__defineSetter__"; "__lookupGetter__"; "__lookupSetter__"; "__proto__"].

Definition inherited (name : string) : bool :=
  existsb (String.eqb name) inherited_names.

Inductive read (A : Type) : Type :=
| Plain (a : A)
| Member (name : string).

Arguments Plain {A} a.
Arguments Member {A} name.

(** [o[key]], [None] for [undefined].  An entry of the object's own comes
    first; [__proto__] is an accessor of the prototype and never one. *)
Definition prop_of {A} (o : gmap string A) (key : string) : option (read A) :=
  if String.eqb key "__proto__" then Some (Member key)
  else
    match o !! key with
    | Some a => Some (Plain a)
    | None => if inherited key then Some (Member key) else None
    end.

(** An inherited member is a function or an object: truthy. *)
Definition read_truthy (r : read value) : bool :=
  match r with
  | Plain v => truthy v
  | Member _ => true
  end.

(** ** JSON text *)

Module JSON.

Definition dquote : ascii := "034"%char.
Definition backslash : ascii := "092"%char.

Definition hex_digit (n : N) : ascii :=
  match n with
  | 0 => "0" | 1 => "1" | 2 => "2" | 3 => "3" | 4 => "4" | 5 => "5"
  | 6 => "6" | 7 => "7" | 8 => "8" | 9 => "9" | 10 => "a" | 11 => "b"
  | 12 => "c" | 13 => "d" | 14 => "e" | _ => "f"
  end%N%char.

(** QuoteJSONString, one code unit. *)
Definition escape_char (c : ascii) : string :=
  let n := N_of_ascii c in
  if Ascii.eqb c dquote then String backslash (String dquote "")
  else if Ascii.eqb c backslash then String backslash (String backslash "")
  else if (n =? 8)%N then "\b"
  else if (n =? 9)%N then "\t"
  else if (n =? 10)%N then "\n"
  else if (n =? 12)%N then "\f"
  else if (n =? 13)%N then "\r"
  else if (n <? 32)%N then
    "\u00" +:+ String (hex_digit (n / 16)) (String (hex_digit (n mod 16)) "")
  else String c "".

Fixpoint escape (s : string) : string :=
  match s with
  | "" => ""
  | String c s' => escape_char c +:+ escape s'
  end.

Definition quote (s : string) : string :=
  String dquote (escape s +:+ String dquote "").

(** [JSON.stringify]; [None] is the result [undefined].  Inside an array
    [undefined] prints as [null], inside an object the property is left
    out. *)
Fixpoint stringify (v : value) : option string :=
  match v with
  | VUndefined => None
  | VNull => Some "null"
  | VBool true => Some "true"
  | VBool false => Some "false"
  | VNum n => Some (string_of_Z n)
  | VStr s => Some (quote s)
  | VArr l =>
      Some ("[" +:+ join "," (List.map (fun e => match stringify e with
                                                | Some t => t
                                                | None => "null"
                                                end) l) +:+ "]")
  | VObj ps =>
      Some ("{" +:+ join "," (List.flat_map
                               (fun kv => match stringify (snd kv) with
                                          | Some t => [quote (fst kv) +:+ ":" +:+ t]
                                          | None => []
                                          end) ps) +:+ "}")
  end.

(** *** Parsing *)

(** What reading a text gives: a result, the exception [SyntaxError], or
    a text whose value lies outside the embedding. *)
Inductive parsed (A : Type) : Type :=
| POk (a : A)
| PSyntaxError
| PBeyond.
Arguments POk {A} a.
Arguments PSyntaxError {A}.
Arguments PBeyond {A}.

Definition is_ws (c : ascii) : bool :=
  let n := N_of_ascii c in
  ((n =? 32) || (n =? 9) || (n =? 10) || (n =? 13))%N.

Fixpoint skip_ws (s : string) : string :=
  match s with
  | "" => ""
  | String c r => if is_ws c then skip_ws r else s
  end.

Fixpoint strip_prefix (p s : string) : option string :=
  match p with
  | "" => Some s
  | String a p' =>
      match s with
      | "" => None
      | String b s' => if Ascii.eqb a b then strip_prefix p' s' else None
      end
  end.

Definition digit_of (c : ascii) : option (uint -> uint) :=
  match N_of_ascii c with
  | 48 => Some D0 | 49 => Some D1 | 50 => Some D2 | 51 => Some D3
  | 52 => Some D4 | 53 => Some D5 | 54 => Some D6 | 55 => Some D7
  | 56 => Some D8 | 57 => Some D9 | _ => None
  end%N.

(** The longest run of digits at the front. *)
Fixpoint read_digits (s : string) : uint * string :=
  match s with
  | "" => (Nil, "")
  | String c r =>
      match digit_of c with
      | Some d => let '(ds, r') := read_digits r in (d ds, r')
      | None => (Nil, s)
      end
  end.

Definition starts_fraction (s : string) : bool :=
  match s with
  | String c _ => (Ascii.eqb c "." || Ascii.eqb c "e" || Ascii.eqb c "E")%char
  | "" => false
  end.

(** Digits of a JSON number: one zero, or a run that does not start with
    zero.  A fraction or an exponent after them is not an integer. *)
Definition parse_digits (neg : bool) (s : string) : parsed (value * string) :=
  let '(ds, r) := read_digits s in
  match ds with
  | Nil => PSyntaxError
  | D0 (D0 _ | D1 _ | D2 _ | D3 _ | D4 _ | D5 _ | D6 _ | D7 _ | D8 _ | D9 _) =>
      PSyntaxError
  | _ =>
      if starts_fraction r then PBeyond
      else POk (VNum (Z.of_int (if neg then Neg ds else Pos ds)), r)
  end.

Definition hex_value (c : ascii) : option N :=
  let n := N_of_ascii c in
  if ((48 <=? n) && (n <=? 57))%N then Some (n - 48)%N
  else if ((97 <=? n) && (n <=? 102))%N then Some (n - 87)%N
  else if ((65 <=? n) && (n <=? 70))%N then Some (n - 55)%N
  else None.

Definition hex4 (a b c d : ascii) : option N :=
  match hex_value a, hex_value b, hex_value c, hex_value d with
  | Some x, Some y, Some z, Some w => Some (((x * 16 + y) * 16 + z) * 16 + w)%N
  | _, _, _, _ => None
  end.

Definition cons_char (c : ascii) (r : parsed (string * string))
  : parsed (string * string) :=
  match r with
  | POk (s, rest) => POk (String c s, rest)
  | PSyntaxError => PSyntaxError
  | PBeyond => PBeyond
  end.

(** The characters of a string literal after its opening quote, up to
    and including the closing one. *)
Fixpoint parse_chars (s : string) : parsed (string * string) :=
  match s with
  | "" => PSyntaxError
  | String c r =>
      if Ascii.eqb c dquote then POk ("", r)
      else if Ascii.eqb c backslash then
        match r with
        | "" => PSyntaxError
        | String e r1 =>
            if Ascii.eqb e dquote then cons_char dquote (parse_chars r1)
            else if Ascii.eqb e backslash then cons_char backslash (parse_chars r1)
            else if Ascii.eqb e "/" then cons_char "/" (parse_chars r1)
            else if Ascii.eqb e "b" then cons_char "008" (parse_chars r1)
            else if Ascii.eqb e "f" then cons_char "012" (parse_chars r1)
            else if Ascii.eqb e "n" then cons_char "010" (parse_chars r1)
            else if Ascii.eqb e "r" then cons_char "013" (parse_chars r1)
            else if Ascii.eqb e "t" then cons_char "009" (parse_chars r1)
            else if Ascii.eqb e "u" then
              match r1 with
              | String h1 (String h2 (String h3 (String h4 r2))) =>
                  match hex4 h1 h2 h3 h4 with
                  | Some n =>
                      if (n <? 256)%N
                      then cons_char (ascii_of_N n) (parse_chars r2)
                      else PBeyond
                  | None => PSyntaxError
                  end
              | _ => PSyntaxError
              end
            else PSyntaxError
        end
      else if (N_of_ascii c <? 32)%N then PSyntaxError
      else cons_char c (parse_chars r)
  end.

(** A value at the front of [s], and what follows it.  [fuel] bounds the
    calls; the length of the text is enough. *)
Fixpoint parse_value (fuel : nat) (s : string) : parsed (value * string) :=
  match fuel with
  | O => PBeyond
  | S fuel =>
      match s with
      | "" => PSyntaxError
      | String c r =>
          if Ascii.eqb c "[" then
            match skip_ws r with
            | String c' r' =>
                if Ascii.eqb c' "]" then POk (VArr [], r')
                else match parse_elements fuel (String c' r') with
                     | POk (l, r'') => POk (VArr l, r'')
                     | PSyntaxError => PSyntaxError
                     | PBeyond => PBeyond
                     end
            | "" => PSyntaxError
            end
          else if Ascii.eqb c "{" then
            match skip_ws r with
            | String c' r' =>
                if Ascii.eqb c' "}" then POk (VObj [], r')
                else match parse_members fuel [] (String c' r') with
                     | POk (ps, r'') => POk (VObj ps, r'')
                     | PSyntaxError => PSyntaxError
                     | PBeyond => PBeyond
                     end
            | "" => PSyntaxError
            end
          else if Ascii.eqb c dquote then
            match parse_chars r with
            | POk (str, r') => POk (VStr str, r')
            | PSyntaxError => PSyntaxError
            | PBeyond => PBeyond
            end
          else if Ascii.eqb c "-" then parse_digits true r
          else if bool_decide (is_Some (digit_of c)) then parse_digits false s
          else match strip_prefix "null" s with
               | Some r' => POk (VNull, r')
               | None =>
                   match strip_prefix "true" s with
                   | Some r' => POk (VBool true, r')
                   | None =>
                       match strip_prefix "false" s with
                       | Some r' => POk (VBool false, r')
                       | None => PSyntaxError
                       end
                   end
               end
      end
  end

(** elements of an array, [s] at the start of one *)
with parse_elements (fuel : nat) (s : string) : parsed (list value * string) :=
  match fuel with
  | O => PBeyond
  | S fuel =>
      match parse_value fuel s with
      | POk (v, r) =>
          match skip_ws r with
          | String c r' =>
              if Ascii.eqb c "," then
                match parse_elements fuel (skip_ws r') with
                | POk (l, r'') => POk (v :: l, r'')
                | PSyntaxError => PSyntaxError
                | PBeyond => PBeyond
                end
              else if Ascii.eqb c "]" then POk ([v], r')
              else PSyntaxError
          | "" => PSyntaxError
          end
      | PSyntaxError => PSyntaxError
      | PBeyond => PBeyond
      end
  end

(** members of an object, [s] at the start of a key; a repeated key
    overwrites the earlier value *)
with parse_members (fuel : nat) (acc : list (string * value)) (s : string)
  : parsed (list (string * value) * string) :=
  match fuel with
  | O => PBeyond
  | S fuel =>
      match s with
      | String q r0 =>
          if Ascii.eqb q dquote then
            match parse_chars r0 with
            | POk (k, r1) =>
                match skip_ws r1 with
                | String c r2 =>
                    if Ascii.eqb c ":" then
                      match parse_value fuel (skip_ws r2) with
                      | POk (v, r3) =>
                          match skip_ws r3 with
                          | String c' r4 =>
                              if Ascii.eqb c' "," then
                                parse_members fuel (obj_set acc k v) (skip_ws r4)
                              else if Ascii.eqb c' "}" then
                                POk (obj_set acc k v, r4)
                              else PSyntaxError
                          | "" => PSyntaxError
                          end
                      | PSyntaxError => PSyntaxError
                      | PBeyond => PBeyond
                      end
                    else PSyntaxError
                | "" => PSyntaxError
                end
            | PSyntaxError => PSyntaxError
            | PBeyond => PBeyond
            end
          else PSyntaxError
      | "" => PSyntaxError
      end
  end.

(** [JSON.parse] of a string: one value, white space around it, nothing
    else. *)
Definition parse (s : string) : parsed value :=
  match parse_value (S (String.length s)) (skip_ws s) with
  | POk (v, r) => match skip_ws r with
                  | "" => POk v
                  | _ => PSyntaxError
                  end
  | PSyntaxError => PSyntaxError
  | PBeyond => PBeyond
  end.

End JSON.


(** ** Exceptions and outcomes *)

(** What the module can throw: the two built-in errors it runs into, and
    whatever else a subscriber or the cipher throws. *)
Inductive exn : Type :=
| TypeError
| SyntaxError
| Thrown (v : value).

(** A call returns, throws, or leaves the embedding (a fraction read from a
    text, a comparison with a string, ...).  The state travels with the
    first two: nothing is rolled back by an exception. *)
Inductive outcome (S A : Type) : Type :=
| Return (a : A) (s : S)
| Throw (e : exn) (s : S)
| Beyond.
Arguments Return {S A} a s.
Arguments Throw {S A} e s.
Arguments Beyond {S A}.

Definition state_of {S A} (o : outcome S A) : option S :=
  match o with
  | Return _ s | Throw _ s => Some s
  | Beyond => None
  end.

Definition result_of {S A} (o : outcome S A) : option A :=
  match o with
  | Return a _ => Some a
  | _ => None
  end.

(** The state a call leaves, [s0] when the call left the embedding. *)
Definition after {S A} (o : outcome S A) (s0 : S) : S :=
  match state_of o with
  | Some s => s
  | None => s0
  end.

(** ** The host libraries *)

Class Host : Type := {
  (** [LZString.compressToUTF16] *)
  compressToUTF16 : string -> string;
  (** [LZString.decompressFromUTF16]; [None] is [null] *)
  decompressFromUTF16 : string -> option string;
  (** [CryptoJS.AES.decrypt(data, secret).toString(CryptoJS.enc.Utf8)];
      [None] when the bytes are not UTF-8 and the library throws *)
  AES_decrypt_Utf8 : string -> string -> option string
}.

Class HostLaws (H : Host) : Prop := {
  decompress_compress :
    forall s, decompressFromUTF16 (compressToUTF16 s) = Some s
}.

(** ** Options, state *)

(** The [options] argument of [setItem] and [getItem]; a field that is not
    passed is [undefined]. *)
Record Options : Type := {
  expiry : value;
  compress : value;
  decompress : value;
  encrypt : value;
  secret : value
}.

Definition no_options : Options :=
  {| expiry := VUndefined; compress := VUndefined; decompress := VUndefined;
     encrypt := VUndefined; secret := VUndefined |}.

Record LogEntry : Type := {
  action : string;
  details : value;
  timestamp : Z
}.

Section Machine.
Context {U : Type}.

(** A subscriber: called with the payload, it changes what it owns and
    completes, or throws. *)
Inductive completion : Type :=
| Normal (u : U)
| Abrupt (e : exn) (u : U).

Definition callback : Type := value -> U -> completion.

Record Listeners : Type := {
  set : list callback;
  remove : list callback;
  clear : list callback
}.

Record State : Type := {
  localStorage : gmap string string;
  memoryCache : gmap string value;
  logs : list LogEntry;
  eventListeners : Listeners;
  (** messages posted on the channel [storage-sync], oldest first *)
  channel : list value;
  (** what the subscribers own *)
  subscribers : U
}.

Definition with_localStorage (f : gmap string string -> gmap string string)
  (st : State) : State :=
  {| localStorage := f (localStorage st); memoryCache := memoryCache st;
     logs := logs st; eventListeners := eventListeners st;
     channel := channel st; subscribers := subscribers st |}.

Definition with_memoryCache (f : gmap string value -> gmap string value)
  (st : State) : State :=
  {| localStorage := localStorage st; memoryCache := f (memoryCache st);
     logs := logs st; eventListeners := eventListeners st;
     channel := channel st; subscribers := subscribers st |}.

Definition with_logs (f : list LogEntry -> list LogEntry) (st : State) : State :=
  {| localStorage := localStorage st; memoryCache := memoryCache st;
     logs := f (logs st); eventListeners := eventListeners st;
     channel := channel st; subscribers := subscribers st |}.

Definition with_eventListeners (f : Listeners -> Listeners) (st : State) : State :=
  {| localStorage := localStorage st; memoryCache := memoryCache st;
     logs := logs st; eventListeners := f (eventListeners st);
     channel := channel st; subscribers := subscribers st |}.

Definition with_channel (f : list value -> list value) (st : State) : State :=
  {| localStorage := localStorage st; memoryCache := memoryCache st;
     logs := logs st; eventListeners := eventListeners st;
     channel := f (channel st); subscribers := subscribers st |}.

Definition with_subscribers (u : U) (st : State) : State :=
  {| localStorage := localStorage st; memoryCache := memoryCache st;
     logs := logs st; eventListeners := eventListeners st;
     channel := channel st; subscribers := u |}.

(** *** The monad of the module's functions *)

Definition M (A : Type) : Type := State -> outcome State A.

Definition ret {A} (a : A) : M A := fun st => Return a st.

Definition bind {A B} (c : M A) (k : A -> M B) : M B :=
  fun st =>
    match c st with
    | Return a st' => k a st'
    | Throw e st' => Throw e st'
    | Beyond => Beyond
    end.

Definition throw {A} (e : exn) : M A := fun st => Throw e st.
Definition beyond {A} : M A := fun _ => Beyond.
Definition modify (f : State -> State) : M unit := fun st => Return tt (f st).
Definition gets {A} (f : State -> A) : M A := fun st => Return (f st) st.

End Machine.

Arguments completion U : clear implicits.
Arguments callback U : clear implicits.
Arguments Listeners U : clear implicits.
Arguments State U : clear implicits.
Arguments M U A : clear implicits.

Declare Scope js_scope.
Delimit Scope js_scope with js.
Notation "'let*' x := c 'in' k" := (bind c (fun x => k))
  (at level 10, x name, c at level 100, k at level 200) : js_scope.
Notation "c ;; k" := (bind c (fun _ => k))
  (at level 100, k at level 200, right associativity) : js_scope.
Local Open Scope js_scope.

(** ** Built-ins the module calls *)

Section Builtins.
Context {U : Type}.

(** [String(x)] *)
Definition js_String (x : value) : M U string :=
  if stringable x then ret (ToString x) else throw TypeError.

(** [JSON.parse(x)]: the argument is turned into a string first. *)
Definition JSON_parse (x : value) : M U value :=
  let* t := js_String x in
  match JSON.parse t with
  | JSON.POk v => ret v
  | JSON.PSyntaxError => throw SyntaxError
  | JSON.PBeyond => beyond
  end.

(** [f(args)] where [f] is a value of the embedding: none is a function. *)
Definition call_value (f : value) (args : list value) : M U value :=
  throw TypeError.

(** [localStorage.getItem(key)]: the text, or [null]. *)
Definition localStorage_getItem (key : string) : M U value :=
  gets (fun st => match localStorage st !! key with
                  | Some t => VStr t
                  | None => VNull
                  end).

(** [localStorage.setItem(key, x)] stores [String(x)]. *)
Definition localStorage_setItem (key : string) (x : value) : M U unit :=
  let* t := js_String x in
  modify (with_localStorage (insert key t)).

Definition localStorage_removeItem (key : string) : M U unit :=
  modify (with_localStorage (delete key)).

Definition localStorage_clear : M U unit :=
  modify (with_localStorage (fun _ => ∅)).

(** [memoryCache[key]] *)
Definition memoryCache_get (key : string) : M U (read value) :=
  gets (fun st => match prop_of (memoryCache st) key with
                  | Some r => r
                  | None => Plain VUndefined
                  end).

(** [memoryCache[key] = v] makes an entry, except under [__proto__], where
    the setter every object inherits takes the assignment: it ignores a
    primitive, and it replaces the prototype of the cache by an object or
    by [null], after which the cache answers other names than here. *)
Definition memoryCache_set (key : string) (v : value) : M U unit :=
  if String.eqb key "__proto__" then
    match v with
    | VNull | VArr _ | VObj _ => beyond
    | _ => ret tt
    end
  else modify (with_memoryCache (insert key v)).

(** [channel.postMessage(msg)] *)
Definition postMessage (msg : value) : M U unit :=
  modify (with_channel (fun q => q ++ [msg])).

(** [new Date().getTime() + e] for a clock reading [now]: a sum for a
    number, a concatenation for a string or an object. *)
Definition time_plus (now : Z) (e : value) : M U value :=
  match e with
  | VNum n => ret (VNum (now + n))
  | VBool b => ret (VNum (now + (if b then 1 else 0)))
  | VNull => ret (VNum now)
  | VUndefined => beyond
  | VStr _ | VArr _ | VObj _ =>
      let* t := js_String e in
      ret (VStr (string_of_Z now +:+ t))
  end.

(** [new Date().getTime() > e] *)
Definition time_after (now : Z) (e : value) : M U bool :=
  match e with
  | VNum n => ret (n <? now)%Z
  | VBool b => ret ((if b then 1 else 0) <? now)%Z
  | VNull => ret (0 <? now)%Z
  | VUndefined => ret false
  | VStr _ | VArr _ | VObj _ => beyond
  end.

(** [x.length] *)
Definition js_length (x : value) : value :=
  match x with
  | VArr l => VNum (Z.of_nat (List.length l))
  | VStr s => VNum (Z.of_nat (String.length s))
  | _ => get_prop x "length"
  end.

(** [a >= limit] for a number [limit] *)
Definition js_ge (a : value) (limit : Z) : M U bool :=
  match a with
  | VNum n => ret (limit <=? n)%Z
  | VBool b => ret (limit <=? (if b then 1 else 0))%Z
  | VNull => ret (limit <=? 0)%Z
  | VUndefined => ret false
  | VStr _ | VArr _ | VObj _ => beyond
  end.

(** [x.shift()]: only an array has the method. *)
Definition array_shift (x : value) : M U value :=
  match x with
  | VArr l => ret (VArr (List.tl l))
  | _ => throw TypeError
  end.

(** [x.push(v)] *)
Definition array_push (x : value) (v : value) : M U value :=
  match x with
  | VArr l => ret (VArr (l ++ [v]))
  | _ => throw TypeError
  end.

End Builtins.

(** ** The module, first listing (with the action log) *)

Module SimpleStorage.
Section SimpleStorage.
Context {U : Type} `{Host}.

Definition serialize (data : value) : value :=
  match JSON.stringify data with
  | Some t => VStr t
  | None => VUndefined
  end.

Definition deserialize (data : value) : M U value :=
  if truthy data then JSON_parse data else ret VNull.

(** [LZString.compressToUTF16(serialize(data))]; the library answers a
    missing input with the empty string. *)
Definition compressData (data : value) : M U value :=
  match serialize data with
  | VStr t => ret (VStr (compressToUTF16 t))
  | VUndefined | VNull => ret (VStr "")
  | _ => beyond
  end.

(** [deserialize(LZString.decompressFromUTF16(data))] *)
Definition decompressData (data : value) : M U value :=
  match data with
  | VStr c =>
      deserialize (match decompressFromUTF16 c with
                   | Some t => VStr t
                   | None => VNull
                   end)
  | VUndefined | VNull => deserialize (VStr "")
  | _ => beyond
  end.

Definition decrypt (data : value) (secret : value) : M U value :=
  match data, secret with
  | VStr c, VStr k =>
      match AES_decrypt_Utf8 c k with
      | Some t => ret (VStr t)
      | None => throw (Thrown (VStr "Malformed UTF-8 data"))
      end
  | _, _ => beyond
  end.

Definition logAction (action : string) (details : value) (now : Z) : M U unit :=
  modify (with_logs (fun l =>
    l ++ [{| action := action; details := details; timestamp := now |}])).

(** [eventListeners[event]] when it is one of the three lists; under any
    other name it is [undefined], or a member every object inherits. *)
Definition listeners_of (l : Listeners U) (event : string)
  : option (list (callback U)) :=
  if String.eqb event "set" then Some (set l)
  else if String.eqb event "remove" then Some (remove l)
  else if String.eqb event "clear" then Some (clear l)
  else None.

(** [cbs.forEach(callback => callback(data))] *)
Fixpoint forEach (cbs : list (callback U)) (data : value) : M U unit :=
  match cbs with
  | [] => ret tt
  | cb :: rest =>
      fun st =>
        match cb data (subscribers st) with
        | Normal u => forEach rest data (with_subscribers u st)
        | Abrupt e u => Throw e (with_subscribers u st)
        end
  end.

(** [if (eventListeners[event]) eventListeners[event].forEach(...)]: a
    member every object inherits passes the test and has no [forEach]. *)
Definition triggerEvent (event : string) (data : value) : M U unit :=
  let* l := gets (fun st => listeners_of (eventListeners st) event) in
  match l with
  | Some cbs => forEach cbs data
  | None => if inherited event then throw TypeError else ret tt
  end.

(** [eventListeners[event].push(callback)] *)
Definition on (event : string) (cb : callback U) : M U unit :=
  let* l := gets (fun st => listeners_of (eventListeners st) event) in
  match l with
  | Some _ =>
      modify (with_eventListeners (fun l =>
        if String.eqb event "set" then
          {| set := set l ++ [cb]; remove := remove l; clear := clear l |}
        else if String.eqb event "remove" then
          {| set := set l; remove := remove l ++ [cb]; clear := clear l |}
        else
          {| set := set l; remove := remove l; clear := clear l ++ [cb] |}))
  | None => throw TypeError
  end.

(** [{ key, value }] *)
Definition key_value (key : string) (v : value) : value :=
  VObj [("key", VStr key); ("value", v)].

(** [{ key }] *)
Definition key_only (key : string) : value := VObj [("key", VStr key)].

(** Inside [setItem] the name [encrypt] is the destructured option: it
    hides the module's function of the same name, and the call applies
    the option's value. *)
Definition setItem (key : string) (v : value) (options : Options) (now : Z)
  : M U unit :=
  let storedValue := serialize v in
  let* storedValue :=
    if truthy (encrypt options) && truthy (secret options)
    then call_value (encrypt options) [storedValue; secret options]
    else ret storedValue in
  let* storedValue :=
    if truthy (compress options) then compressData storedValue
    else ret storedValue in
  let* deadline :=
    if truthy (expiry options) then time_plus now (expiry options)
    else ret VNull in
  let item := VObj [("value", storedValue); ("expiry", deadline)] in
  localStorage_setItem key (serialize item) ;;
  logAction "set" (key_value key v) now ;;
  triggerEvent "set" (key_value key v).

Definition getItem (key : string) (options : Options) (now : Z) : M U value :=
  let* raw := localStorage_getItem key in
  let* item := deserialize raw in
  if negb (truthy item) then ret VNull
  else
    let* expired :=
      if truthy (get_prop item "expiry")
      then time_after now (get_prop item "expiry")
      else ret false in
    if expired : bool then
      localStorage_removeItem key ;;
      logAction "remove" (key_only key) now ;;
      ret VNull
    else
      let value := get_prop item "value" in
      let* value :=
        if truthy (decompress options) then decompressData value
        else ret value in
      let* value :=
        if truthy (encrypt options) && truthy (secret options)
        then decrypt value (secret options)
        else ret value in
      deserialize value.

Definition removeItem (key : string) (now : Z) : M U unit :=
  localStorage_removeItem key ;;
  logAction "remove" (key_only key) now ;;
  triggerEvent "remove" (key_only key).

Definition clearStorage (now : Z) : M U unit :=
  localStorage_clear ;;
  logAction "clear" (VObj []) now ;;
  triggerEvent "clear" (VObj []).

Definition setItemWithCache (key : string) (v : value) (now : Z) : M U unit :=
  memoryCache_set key v ;;
  localStorage_setItem key (serialize v) ;;
  logAction "setItemWithCache" (key_value key v) now ;;
  triggerEvent "set" (key_value key v).

(** [memoryCache[key] || getItem(key)] *)
Definition getItemWithCache (key : string) (now : Z) : M U (read value) :=
  let* cached := memoryCache_get key in
  let* value :=
    if read_truthy cached then ret cached
    else (let* item := getItem key no_options now in ret (Plain item)) in
  logAction "getItemWithCache" (key_only key) now ;;
  ret value.

Definition setItemWithLimit (key : string) (v : value) (limit : Z) (now : Z)
  : M U unit :=
  let* raw := localStorage_getItem key in
  let* parsed := JSON_parse raw in
  let storedItems := js_or parsed (VArr []) in
  let* full := js_ge (js_length storedItems) limit in
  let* storedItems :=
    if full : bool then array_shift storedItems else ret storedItems in
  let* storedItems := array_push storedItems v in
  localStorage_setItem key (serialize storedItems) ;;
  logAction "setItemWithLimit" (key_value key v) now.

Definition setItemWithSync (key : string) (v : value) (now : Z) : M U unit :=
  setItem key v no_options now ;;
  postMessage (key_value key v).

End SimpleStorage.
End SimpleStorage.

(** ** The module, second listing (no action log)

    [serialize], [deserialize], [compressData], [decompressData],
    [decrypt], [triggerEvent] and [on] read the same in both listings and
    are taken from the first.  The functions below are the second
    listing's: no [logAction], and a [setItemWithSync] that writes the
    value as it is. *)

Module SimpleStorageDirect.
Section SimpleStorageDirect.
Context {U : Type} `{Host}.

Import SimpleStorage.

Definition setItem (key : string) (v : value) (options : Options) (now : Z)
  : M U unit :=
  let storedValue := serialize v in
  let* storedValue :=
    if truthy (encrypt options) && truthy (secret options)
    then call_value (encrypt options) [storedValue; secret options]
    else ret storedValue in
  let* storedValue :=
    if truthy (compress options) then compressData storedValue
    else ret storedValue in
  let* deadline :=
    if truthy (expiry options) then time_plus now (expiry options)
    else ret VNull in
  let item := VObj [("value", storedValue); ("expiry", deadline)] in
  localStorage_setItem key (serialize item) ;;
  triggerEvent "set" (key_value key v).

Definition getItem (key : string) (options : Options) (now : Z) : M U value :=
  let* raw := localStorage_getItem key in
  let* item := deserialize raw in
  if negb (truthy item) then ret VNull
  else
    let* expired :=
      if truthy (get_prop item "expiry")
      then time_after now (get_prop item "expiry")
      else ret false in
    if expired : bool then
      localStorage_removeItem key ;;
      ret VNull
    else
      let value := get_prop item "value" in
      let* value :=
        if truthy (decompress options) then decompressData value
        else ret value in
      let* value :=
        if truthy (encrypt options) && truthy (secret options)
        then decrypt value (secret options)
        else ret value in
      deserialize value.

Definition removeItem (key : string) : M U unit :=
  localStorage_removeItem key ;;
  triggerEvent "remove" (key_only key).

Definition clearStorage : M U unit :=
  localStorage_clear ;;
  triggerEvent "clear" (VObj []).

Definition setItemWithCache (key : string) (v : value) : M U unit :=
  memoryCache_set key v ;;
  localStorage_setItem key (serialize v) ;;
  triggerEvent "set" (key_value key v).

Definition getItemWithCache (key : string) (now : Z) : M U (read value) :=
  let* cached := memoryCache_get key in
  if read_truthy cached then ret cached
  else (let* item := getItem key no_options now in ret (Plain item)).

Definition setItemWithLimit (key : string) (v : value) (limit : Z) : M U unit :=
  let* raw := localStorage_getItem key in
  let* parsed := JSON_parse raw in
  let storedItems := js_or parsed (VArr []) in
  let* full := js_ge (js_length storedItems) limit in
  let* storedItems :=
    if full : bool then array_shift storedItems else ret storedItems in
  let* storedItems := array_push storedItems v in
  localStorage_setItem key (serialize storedItems).

Definition setItemWithSync (key : string) (v : value) : M U unit :=
  localStorage_setItem key v ;;
  postMessage (key_value key v).

End SimpleStorageDirect.
End SimpleStorageDirect.

(** *** The first listing seen without its log *)

Section Unlogged.
Context {U : Type}.

Definition unlogged (st : State U) : State U := with_logs (fun _ => []) st.

Definition forget {A} (o : outcome (State U) A) : outcome (State U) A :=
  match o with
  | Return a st => Return a (unlogged st)
  | Throw e st => Throw e (unlogged st)
  | Beyond => Beyond
  end.

(** [c'] does what [c] does, the log left aside. *)
Definition unlogs {A} (c c' : M U A) : Prop :=
  forall st, forget (c st) = c' (unlogged st).

(** [c] neither reads nor writes the state, as the built-ins and the
    codec. *)
Definition stateless {A} (c : M U A) : Prop :=
  forall st st', c st' = match c st with
                         | Return a _ => Return a st'
                         | Throw e _ => Throw e st'
                         | Beyond => Beyond
                         end.

End Unlogged.

(** ** A host and subscribers to run the module on *)

Module Run.

(** A stand-in for the two libraries: compression puts a mark in front
    of the text, and a cipher text is the secret followed by the plain
    text. *)
Definition host : Host :=
  {| compressToUTF16 s := String "~" s;
     decompressFromUTF16 t :=
       match t with
       | String c s => if Ascii.eqb c "~" then Some s else None
       | "" => None
       end;
     AES_decrypt_Utf8 c k := JSON.strip_prefix k c |}.

(** Subscribers that write their name down; [boom] throws after that. *)
Definition note (name : string) : callback (list string) :=
  fun _ u => Normal (u ++ [name]).

Definition boom (name : string) : callback (list string) :=
  fun _ u => Abrupt (Thrown (VStr name)) (u ++ [name]).

(** The module right after it is loaded. *)
Definition fresh : State (list string) :=
  {| localStorage := ∅; memoryCache := ∅; logs := [];
     eventListeners := {| set := []; remove := []; clear := [] |};
     channel := []; subscribers := [] |}.

(** Options as the README passes them. *)
Definition readme_write : Options :=
  {| expiry := VNum 60000; compress := VBool true; decompress := VUndefined;
     encrypt := VBool true; secret := VStr "mySecret" |}.

Definition readme_read : Options :=
  {| expiry := VUndefined; compress := VUndefined; decompress := VBool true;
     encrypt := VBool true; secret := VStr "mySecret" |}.

Definition alice : value := VObj [("name", VStr "Alice"); ("age", VNum 28)].

Definition expires_in (ms : Z) : Options :=
  {| expiry := VNum ms; compress := VUndefined; decompress := VUndefined;
     encrypt := VUndefined; secret := VUndefined |}.

(** The state after [alice] is written under [k] at time 1000 with
    [expiry = 10000]. *)
Definition written_10000 : State (list string) :=
  after (SimpleStorage.setItem (H:=host) "k" alice (expires_in 10000) 1000 fresh)
    fresh.

(** The text [setItem] stored in [written_10000]. *)
Definition item_text : string :=
  match localStorage written_10000 !! "k" with
  | Some t => t
  | None => ""
  end.

(** The state after [setItemWithCache("k", c)] at time 0. *)
Definition cached (c : value) : State (list string) :=
  after (SimpleStorage.setItemWithCache "k" c 0 fresh) fresh.

(** A store that holds a text which is not JSON. *)
Definition garbled : State (list string) :=
  with_localStorage (insert "k" "hello") fresh.

(** The module with three subscribers of [set], the second of which
    throws. *)
Definition subscribed : State (list string) :=
  {| localStorage := ∅; memoryCache := ∅; logs := [];
     eventListeners := {| set := [note "a"; boom "b"; note "c"];
                          remove := []; clear := [] |};
     channel := []; subscribers := [] |}.

End Run.

(** ** The rest of the first listing

    The functions the module has besides the item pipeline: the encrypted
    pair, the cleanup by stored size, the listener on the channel, and,
    on a wider state, the history and the copies to and from the session
    store. *)

(** [CryptoJS.AES.encrypt(data, secret).toString()].  The library draws a
    random salt; it is an argument here, as the clock is. *)
Class Cipher : Type := {
  AES_encrypt : string -> string -> string -> string
}.

(** Decrypting with the secret used to encrypt gives the text back, and a
    cipher text of a text that is not empty is not empty. *)
Class CipherLaws (H : Host) (C : Cipher) : Prop := {
  decrypt_encrypt :
    forall salt d k, AES_decrypt_Utf8 (AES_encrypt salt d k) k = Some d;
  encrypt_nonempty :
    forall salt d k, d <> "" -> AES_encrypt salt d k <> ""
}.

(** [Object.keys(localStorage)]: the order is the browser's. *)
Class KeyOrder : Type := {
  Object_keys : gmap string string -> list string
}.

(** The keys listed are the keys stored, each once. *)
Class KeyOrderLaws (K : KeyOrder) : Prop := {
  keys_NoDup : forall m, NoDup (Object_keys m);
  keys_stored : forall m k, k ∈ Object_keys m <-> is_Some (m !! k)
}.

(** [items.sort((a, b) => len(a) - len(b))]: ascending, and stable. *)
Fixpoint insert_by (len : string -> nat) (k : string) (l : list string)
  : list string :=
  match l with
  | [] => [k]
  | x :: l' =>
      if (len k <=? len x)%nat then k :: x :: l' else x :: insert_by len k l'
  end.

Fixpoint sort_by (len : string -> nat) (l : list string) : list string :=
  match l with
  | [] => []
  | x :: l' => insert_by len x (sort_by len l')
  end.

(** [localStorage.getItem(k).length] for a stored key *)
Definition stored_length (m : gmap string string) (k : string) : nat :=
  match m !! k with
  | Some t => String.length t
  | None => 0
  end.

Module SimpleStorageRest.
Section SimpleStorageRest.
Context {U : Type} {H : Host} {C : Cipher} {K : KeyOrder}.

Import SimpleStorage.

(** The module's [encrypt]; [setItemEncrypted] has no option of that name
    in the way. *)
Definition encrypt (data : value) (secret : value) (salt : string) : M U value :=
  match data, secret with
  | VStr d, VStr k => ret (VStr (AES_encrypt salt d k))
  | _, _ => beyond
  end.

Definition setItemEncrypted (key : string) (v : value) (secret : value)
    (salt : string) (now : Z) : M U unit :=
  let* encryptedValue := encrypt (serialize v) secret salt in
  localStorage_setItem key encryptedValue ;;
  logAction "setItemEncrypted" (key_only key) now ;;
  triggerEvent "set" (key_value key v).

Definition getItemDecrypted (key : string) (secret : value) (now : Z)
  : M U value :=
  let* item := localStorage_getItem key in
  if negb (truthy item) then ret VNull
  else
    let* decryptedValue := decrypt item secret in
    logAction "getItemDecrypted" (key_only key) now ;;
    deserialize decryptedValue.

(** [items.forEach(key => { if (key !== priorityKey) { ... } })] *)
Fixpoint clean_each (items : list string) (priorityKey : string) (now : Z)
  : M U unit :=
  match items with
  | [] => ret tt
  | key :: rest =>
      (if String.eqb key priorityKey then ret tt
       else
         localStorage_removeItem key ;;
         logAction "cleanStorageByPriority" (key_only key) now) ;;
      clean_each rest priorityKey now
  end.

(** The comparator reads the length of each listed key's text; a listed
    key with no text is outside the embedding. *)
Definition cleanStorageByPriority (priorityKey : string) (now : Z) : M U unit :=
  let* store := gets localStorage in
  let items := Object_keys store in
  if forallb (fun k => bool_decide (is_Some (store !! k))) items
  then clean_each (sort_by (stored_length store) items) priorityKey now
  else beyond.

(** [channel.onmessage] with [event.data = data]: taking [key] and
    [value] out of [null] or [undefined] throws; a key that is not a string
    is outside the embedding. *)
Definition onmessage (data : value) (now : Z) : M U unit :=
  match data with
  | VUndefined | VNull => throw TypeError
  | _ =>
      let key := get_prop data "key" in
      let v := get_prop data "value" in
      if truthy key && truthy v then
        match key with
        | VStr k => setItem k v no_options now
        | _ => beyond
        end
      else ret tt
  end.

End SimpleStorageRest.
End SimpleStorageRest.

(** The listener of the second listing: no test of [key] and [value], a
    direct write, then the event. *)
Module SimpleStorageDirectRest.
Section SimpleStorageDirectRest.
Context {U : Type}.

Import SimpleStorage.

Definition onmessage (data : value) : M U unit :=
  match data with
  | VUndefined | VNull => throw TypeError
  | _ =>
      let key := get_prop data "key" in
      let v := get_prop data "value" in
      let* k := js_String key in
      localStorage_setItem k v ;;
      triggerEvent "set" (VObj [("key", key); ("value", v)])
  end.

End SimpleStorageDirectRest.
End SimpleStorageDirectRest.

(** *** History and the session store *)

(** [{ value, timestamp: new Date() }] *)
Record HistoryEntry : Type := {
  entry_value : value;
  entry_timestamp : Z
}.

Section Page.
Context {U : Type}.

(** The module's state together with [history] and the page's
    [sessionStorage]. *)
Record Page : Type := {
  closure : State U;
  history : gmap string (list HistoryEntry);
  sessionStorage : gmap string string
}.

Definition with_closure (f : State U -> State U) (p : Page) : Page :=
  {| closure := f (closure p); history := history p;
     sessionStorage := sessionStorage p |}.

Definition with_history
    (f : gmap string (list HistoryEntry) -> gmap string (list HistoryEntry))
    (p : Page) : Page :=
  {| closure := closure p; history := f (history p);
     sessionStorage := sessionStorage p |}.

Definition with_sessionStorage (f : gmap string string -> gmap string string)
    (p : Page) : Page :=
  {| closure := closure p; history := history p;
     sessionStorage := f (sessionStorage p) |}.

Definition PM (A : Type) : Type := Page -> outcome Page A.

Definition pret {A} (a : A) : PM A := fun p => Return a p.

Definition pbind {A B} (c : PM A) (k : A -> PM B) : PM B :=
  fun p =>
    match c p with
    | Return a p' => k a p'
    | Throw e p' => Throw e p'
    | Beyond => Beyond
    end.

Definition pthrow {A} (e : exn) : PM A := fun p => Throw e p.
Definition pmodify (f : Page -> Page) : PM unit := fun p => Return tt (f p).
Definition pgets {A} (f : Page -> A) : PM A := fun p => Return (f p) p.

(** A function of the module run on the page. *)
Definition lift {A} (c : M U A) : PM A :=
  fun p =>
    match c (closure p) with
    | Return a st => Return a (with_closure (fun _ => st) p)
    | Throw e st => Throw e (with_closure (fun _ => st) p)
    | Beyond => Beyond
    end.

End Page.

Arguments Page U : clear implicits.
Arguments PM U A : clear implicits.

Declare Scope page_scope.
Delimit Scope page_scope with page.
Notation "'let*' x := c 'in' k" := (pbind c (fun x => k))
  (at level 10, x name, c at level 100, k at level 200) : page_scope.
Notation "c ;; k" := (pbind c (fun _ => k))
  (at level 100, k at level 200, right associativity) : page_scope.

Module SimpleStoragePage.
Section SimpleStoragePage.
Context {U : Type} {H : Host}.

Import SimpleStorage.

(** [history[key].push(entry)]: an inherited member has no [push]. *)
Definition history_push (key : string) (entry : HistoryEntry) : PM U unit :=
  fun p =>
    match prop_of (history p) key with
    | Some (Plain l) => Return tt (with_history (insert key (l ++ [entry])) p)
    | Some (Member _) | None => Throw TypeError p
    end.

(** [if (!history[key]) history[key] = []]: an entry and an inherited
    member are both truthy. *)
Definition history_init (key : string) : PM U unit :=
  fun p =>
    match prop_of (history p) key with
    | Some _ => Return tt p
    | None => Return tt (with_history (insert key []) p)
    end.

Definition setItemWithHistory (key : string) (v : value) (now : Z) : PM U unit :=
  (history_init key ;;
   history_push key {| entry_value := v; entry_timestamp := now |} ;;
   lift (logAction "setItemWithHistory" (key_value key v) now) ;;
   lift (setItem key v no_options now))%page.

(** [history[key] || []] *)
Definition getHistory (key : string) (now : Z)
  : PM U (read (list HistoryEntry)) :=
  (lift (logAction "getHistory" (key_only key) now) ;;
   pgets (fun p => match prop_of (history p) key with
                   | Some r => r
                   | None => Plain []
                   end))%page.

(** [sessionStorage.setItem(key, x)] stores [String(x)]. *)
Definition sessionStorage_setItem (key : string) (x : value) : PM U unit :=
  (let* t := lift (js_String x) in
   pmodify (with_sessionStorage (insert key t)))%page.

Definition copyFromLocalToSession (key : string) (now : Z) : PM U unit :=
  (let* value := lift (localStorage_getItem key) in
   if truthy value then
     sessionStorage_setItem key value ;;
     lift (logAction "copyFromLocalToSession" (key_only key) now)
   else pret tt)%page.

Definition copyFromSessionToLocal (key : string) (now : Z) : PM U unit :=
  (let* value := pgets (fun p => match sessionStorage p !! key with
                                 | Some t => VStr t
                                 | None => VNull
                                 end) in
   if truthy value then
     lift (localStorage_setItem key value) ;;
     lift (logAction "copyFromSessionToLocal" (key_only key) now)
   else pret tt)%page.

End SimpleStoragePage.
End SimpleStoragePage.

(** A cipher, a key order and a page to run these on. *)
Module RunRest.

(** The stand-in cipher that goes with [Run.host]: the secret, then the
    text. *)
Definition cipher : Cipher :=
  {| AES_encrypt salt d k := k +:+ d |}.

(** The keys in the order the finite map keeps them. *)
Definition key_order : KeyOrder :=
  {| Object_keys m := (map_to_list m).*1 |}.

Definition page : Page (list string) :=
  {| closure := Run.fresh; history := ∅; sessionStorage := ∅ |}.

(** A store with three texts of different lengths. *)
Definition crowded : State (list string) :=
  with_localStorage
    (fun _ => <["long" := "[1,2,3,4]"]> (<["mid" := "[1,2]"]> (<["short" := "1"]> ∅)))
    Run.fresh.

(** The module with one subscriber of [set], which throws. *)
Definition guarded : State (list string) :=
  with_eventListeners
    (fun _ => {| set := [Run.boom "b"]; remove := []; clear := [] |})
    Run.fresh.

(** A page over the crowded store. *)
Definition crowded_page : Page (list string) :=
  {| closure := crowded; history := ∅; sessionStorage := ∅ |}.

(** Options for a compressed write that lasts a minute, and for its
    read. *)
Definition compressed_write : Options :=
  {| expiry := VNum 60000; compress := VBool true; decompress := VUndefined;
     encrypt := VUndefined; secret := VUndefined |}.

Definition compressed_read : Options :=
  {| expiry := VUndefined; compress := VUndefined; decompress := VBool true;
     encrypt := VUndefined; secret := VUndefined |}.

(** A store that holds the empty text under [k]. *)
Definition blank : State (list string) :=
  with_localStorage (insert "k" "") Run.fresh.

(** A store that holds under [k] the text of the item
    [{value: c, expiry: null}], [c] a cipher text. *)
Definition sealed (c : string) : State (list string) :=
  with_localStorage
    (insert "k"
       (match JSON.stringify (VObj [("value", VStr c); ("expiry", VNull)]) with
        | Some t => t
        | None => ""
        end))
    Run.fresh.

(** Options to read with a secret. *)
Definition with_secret (k : string) : Options :=
  {| expiry := VUndefined; compress := VUndefined; decompress := VUndefined;
     encrypt := VBool true; secret := VStr k |}.

(** [Run.written_10000] with a subscriber of [remove], and with three, the
    second of which throws. *)
Definition watched : State (list string) :=
  with_eventListeners
    (fun _ => {| set := []; remove := [Run.note "r"]; clear := [] |})
    Run.written_10000.

Definition tripped : State (list string) :=
  with_eventListeners
    (fun _ => {| set := [];
                 remove := [Run.note "r"; Run.boom "s"; Run.note "t"];
                 clear := [] |})
    Run.written_10000.

(** The module with two subscribers of [set], which complete. *)
Definition listening : State (list string) :=
  with_eventListeners
    (fun _ => {| set := [Run.note "a"; Run.note "b"]; remove := [];
                 clear := [] |})
    Run.fresh.

(** An object with a [toString] of its own. *)
Definition odd : value := VObj [("toString", VNum 1)].

End RunRest.

(** *** Notions for the properties of the pipeline *)

(** The log entry of one removal by [cleanStorageByPriority]. *)
Definition cleaned (now : Z) (key : string) : LogEntry :=
  {| action := "cleanStorageByPriority";
     details := SimpleStorage.key_only key;
     timestamp := now |}.

(** The order of the comparator of [cleanStorageByPriority]: the text of
    [a] is no longer than the text of [b]. *)
Definition shorter (m : gmap string string) (a b : string) : Prop :=
  (stored_length m a <= stored_length m b)%nat.

(** The page after the writes [ws], each a value with the reading of the
    clock, made in turn through [setItemWithHistory]. *)
Fixpoint history_writes {U} `{Host} (key : string) (ws : list (value * Z))
    (p : Page U) : Page U :=
  match ws with
  | [] => p
  | (v, t) :: ws' =>
      history_writes key ws'
        (after (SimpleStoragePage.setItemWithHistory key v t p) p)
  end.

(** The history entries of the writes [ws]. *)
Definition entries_of (ws : list (value * Z)) : list HistoryEntry :=
  map (fun w => {| entry_value := fst w; entry_timestamp := snd w |}) ws.

Section ReadShape.
Context {U : Type} {H : Host}.

Import SimpleStorage.

(** [getItem] from the text it has read on. *)
Definition getItem_after_read (key : string) (options : Options) (now : Z)
    (raw : value) : M U value :=
  let* item := deserialize raw in
  if negb (truthy item) then ret VNull
  else
    let* expired :=
      if truthy (get_prop item "expiry")
      then time_after now (get_prop item "expiry")
      else ret false in
    if expired : bool then
      localStorage_removeItem key ;;
      logAction "remove" (key_only key) now ;;
      ret VNull
    else
      let value := get_prop item "value" in
      let* value :=
        if truthy (decompress options) then decompressData value
        else ret value in
      let* value :=
        if truthy (encrypt options) && truthy (secret options)
        then decrypt value (secret options)
        else ret value in
      deserialize value.

(** The state after the removal of an expired item. *)
Definition expired_removed (key : string) (now : Z) (st : State U) : State U :=
  with_logs (fun g => g ++ [{| action := "remove"; details := key_only key;
                               timestamp := now |}])
    (with_localStorage (delete key) st).

(** [c] leaves the state alone and does the same at every state, or is
    the removal of an expired item. *)
Definition reads_or_expires (key : string) (now : Z) (c : M U value) : Prop :=
  stateless c \/ forall st, c st = Return VNull (expired_removed key now st).

End ReadShape.

(** ** Notions the statements use *)

Definition thrown_of {S A} (o : outcome S A) : option exn :=
  match o with
  | Throw e _ => Some e
  | _ => None
  end.

(** The sequence [setItemWithLimit] takes a stored text for: nothing
    stored and a stored falsy value both count as the empty one. *)
Definition reads_as_items (stored : option string) (l : list value) : Prop :=
  match stored with
  | None => l = []
  | Some t =>
      JSON.parse t = JSON.POk (VArr l)
      \/ (exists x, JSON.parse t = JSON.POk x /\ truthy x = false /\ l = [])
  end.

(** The subscribers of a list that all complete, run from [u]. *)
Fixpoint completes {U} (cbs : list (callback U)) (data : value) (u : U)
  : option U :=
  match cbs with
  | [] => Some u
  | cb :: rest =>
      match cb data u with
      | Normal u' => completes rest data u'
      | Abrupt _ _ => None
      end
  end.


(** ** Notions for the facts about JSON text *)

(** JSON-representable: no [undefined] anywhere, and the keys of an object
    are distinct. *)
Fixpoint json_value (v : value) : bool :=
  match v with
  | VUndefined => false
  | VNull | VBool _ | VNum _ | VStr _ => true
  | VArr l => forallb json_value l
  | VObj ps =>
      forallb (fun kv => json_value (snd kv)) ps
      && bool_decide (NoDup (List.map fst ps))
  end.

Module JSONText.
Import JSON.

(** A text that can follow a printed value: the end, or a separator. *)
Definition delimited (r : string) : bool :=
  match r with
  | "" => true
  | String c _ => Ascii.eqb c "," || Ascii.eqb c "]" || Ascii.eqb c "}"
  end.

(** The first character of a printed value: not white space, not a
    closing bracket. *)
Definition value_head (t : string) : bool :=
  match t with
  | "" => false
  | String c _ =>
      negb (is_ws c) && negb (Ascii.eqb c "]") && negb (Ascii.eqb c "}")
  end.

Definition digit_head (s : string) : bool :=
  match s with
  | String c _ => bool_decide (is_Some (digit_of c))
  | "" => false
  end.

Definition item (e : value) : string :=
  match stringify e with Some t => t | None => "null" end.

Definition member (kv : string * value) : list string :=
  match stringify (snd kv) with
  | Some t => [quote (fst kv) +:+ ":" +:+ t]
  | None => []
  end.

Definition roundtrips (v : value) : Prop :=
  json_value v = true ->
  forall t fuel r,
    stringify v = Some t ->
    (String.length t < fuel)%nat ->
    delimited r = true ->
    parse_value fuel (t +:+ r) = POk (v, r).

End JSONText.

(** * Facts about JSON text *)

Module JSONFacts.
Import JSON JSONText.

Lemma append_cons c (a b : string) : String c a +:+ b = String c (a +:+ b).
Proof. reflexivity. Qed.

Lemma append_nil_l (b : string) : "" +:+ b = b.
Proof. reflexivity. Qed.

Lemma append_assoc (a b c : string) : (a +:+ b) +:+ c = a +:+ (b +:+ c).
Proof.
  induction a as [|x a IH]; [reflexivity|].
  rewrite !append_cons, IH. reflexivity.
Qed.

Lemma length_append (a b : string) :
  String.length (a +:+ b) = (String.length a + String.length b)%nat.
Proof.
  induction a as [|x a IH]; [reflexivity|].
  rewrite append_cons. simpl. now rewrite IH.
Qed.

Lemma skip_ws_head t r : value_head t = true -> skip_ws (t +:+ r) = t +:+ r.
Proof.
  destruct t as [|c t]; simpl; [discriminate|].
  rewrite append_cons. simpl.
  destruct (is_ws c); simpl; [discriminate | reflexivity].
Qed.

Lemma skip_ws_delimited r : delimited r = true -> skip_ws r = r.
Proof.
  destruct r as [|c r]; simpl; [reflexivity|].
  intros H. destruct (is_ws c) eqn:E; [|reflexivity].
  exfalso. revert H E.
  destruct c as [[|] [|] [|] [|] [|] [|] [|] [|]]; vm_compute; congruence.
Qed.

(** *** Strings *)

Lemma parse_chars_escape_char c r :
  parse_chars (escape_char c +:+ r) = cons_char c (parse_chars r).
Proof.
  destruct c as [[|] [|] [|] [|] [|] [|] [|] [|]]; reflexivity.
Qed.

Lemma parse_chars_escape s r :
  parse_chars (escape s +:+ String dquote r) = POk (s, r).
Proof.
  induction s as [|c s IH].
  - reflexivity.
  - change (escape (String c s)) with (escape_char c +:+ escape s).
    rewrite append_assoc, parse_chars_escape_char, IH. reflexivity.
Qed.

Lemma quote_append s r :
  quote s +:+ r = String dquote (escape s +:+ String dquote r).
Proof. unfold quote. now rewrite append_cons, append_assoc. Qed.

(** *** Numbers *)

Lemma read_digits_print d r :
  digit_head r = false ->
  read_digits (NilEmpty.string_of_uint d +:+ r) = (d, r).
Proof.
  intros Hr.
  induction d; simpl; rewrite ?append_cons; simpl; try (rewrite IHd; reflexivity).
  rewrite append_nil_l.
  destruct r as [|c r]; simpl in *; [reflexivity|].
  destruct (digit_of c); [|reflexivity].
  exfalso. rewrite bool_decide_eq_false in Hr. apply Hr. eauto.
Qed.

Lemma to_uint_normal p : unorm (Pos.to_uint p) = Pos.to_uint p.
Proof.
  rewrite <- (DecimalPos.Unsigned.to_of (Pos.to_uint p)).
  now rewrite DecimalPos.Unsigned.of_to.
Qed.

Lemma unorm_fixed_head d d' : unorm d = d -> d = D0 d' -> d' = Nil.
Proof.
  intros Hn ->. rewrite unorm_D0 in Hn.
  destruct d' as [| | | | | | | | | |]; try reflexivity;
    exfalso;
    match type of Hn with
    | unorm ?u = _ =>
        assert (Hu : u <> Nil) by discriminate;
        pose proof (nb_digits_unorm u Hu) as Hle;
        rewrite Hn in Hle; simpl in Hle; lia
    end.
Qed.

Lemma delimited_not_digit r : delimited r = true -> digit_head r = false.
Proof.
  destruct r as [|c r]; simpl; [reflexivity|].
  destruct c as [[|] [|] [|] [|] [|] [|] [|] [|]]; vm_compute; congruence.
Qed.

Lemma delimited_not_fraction r : delimited r = true -> starts_fraction r = false.
Proof.
  destruct r as [|c r]; simpl; [reflexivity|].
  destruct c as [[|] [|] [|] [|] [|] [|] [|] [|]]; vm_compute; congruence.
Qed.

Lemma parse_digits_pos neg p r :
  delimited r = true ->
  parse_digits neg (NilEmpty.string_of_uint (Pos.to_uint p) +:+ r)
  = POk (VNum (if neg then Z.neg p else Z.pos p), r).
Proof.
  intros Hr. unfold parse_digits.
  rewrite read_digits_print by now apply delimited_not_digit.
  rewrite delimited_not_fraction by assumption.
  assert (Hv : Z.of_int (if neg then Neg (Pos.to_uint p) else Pos (Pos.to_uint p))
               = if neg then Z.neg p else Z.pos p).
  { destruct neg; [apply (DecimalZ.of_to (Z.neg p)) | apply (DecimalZ.of_to (Z.pos p))]. }
  rewrite <- Hv.
  pose proof (to_uint_normal p) as Hn.
  pose proof (DecimalPos.Unsigned.to_uint_nonnil p) as Hnil.
  pose proof (DecimalPos.Unsigned.to_uint_nonzero p) as Hz.
  destruct (Pos.to_uint p) as [|d'| | | | | | | | |] eqn:E; try reflexivity.
  - congruence.
  - pose proof (unorm_fixed_head _ d' Hn eq_refl) as ->.
    exfalso. apply Hz. reflexivity.
Qed.

Lemma string_of_uint_nonnil d :
  d <> Nil -> NilZero.string_of_uint d = NilEmpty.string_of_uint d.
Proof. destruct d; [congruence | reflexivity ..]. Qed.

Lemma digit_head_print d r :
  d <> Nil -> digit_head (NilEmpty.string_of_uint d +:+ r) = true.
Proof. destruct d; [congruence | reflexivity ..]. Qed.

Lemma digit_head_value_head s : digit_head s = true -> value_head s = true.
Proof.
  destruct s as [|c s]; simpl; [discriminate|].
  destruct c as [[|] [|] [|] [|] [|] [|] [|] [|]]; vm_compute; congruence.
Qed.

Lemma string_of_Z_head n r :
  value_head (string_of_Z n) = true
  /\ (1 <= String.length (string_of_Z n))%nat
  /\ (delimited r = true ->
      forall fuel, parse_value (S fuel) (string_of_Z n +:+ r) = POk (VNum n, r)).
Proof.
  unfold string_of_Z. destruct n as [|p|p]; simpl Z.to_int.
  - repeat split; [simpl; lia|]. intros Hr fuel.
    change (NilZero.string_of_int (Pos zero) +:+ r) with (String "0" r).
    cbn -[parse_digits]. unfold parse_digits.
    change (String "0" r) with (NilEmpty.string_of_uint zero +:+ r).
    rewrite read_digits_print by now apply delimited_not_digit.
    now rewrite delimited_not_fraction.
  - pose proof (DecimalPos.Unsigned.to_uint_nonnil p) as Hnil.
    unfold NilZero.string_of_int.
    rewrite string_of_uint_nonnil by assumption.
    pose proof (digit_head_print _ "" Hnil) as Hd.
    assert (Hd' : forall r', digit_head (NilEmpty.string_of_uint (Pos.to_uint p) +:+ r') = true)
      by (intros r'; now apply digit_head_print).
    destruct (NilEmpty.string_of_uint (Pos.to_uint p)) as [|c s] eqn:E.
    { specialize (Hd' ""). discriminate. }
    split; [|split].
    + apply digit_head_value_head. apply (Hd' "").
    + simpl. lia.
    + intros Hr fuel. rewrite <- E.
      pose proof (parse_digits_pos false p r Hr) as Hp.
      rewrite E in *. specialize (Hd' r). rewrite append_cons in *.
      simpl in Hd'. cbn -[parse_digits].
      rewrite Hd'.
      assert (Hc : Ascii.eqb c "[" = false /\ Ascii.eqb c "{" = false
                   /\ Ascii.eqb c dquote = false /\ Ascii.eqb c "-" = false).
      { clear -Hd'. revert Hd'.
        destruct c as [[|] [|] [|] [|] [|] [|] [|] [|]]; vm_compute; intuition congruence. }
      destruct Hc as (-> & -> & -> & ->). exact Hp.
  - pose proof (DecimalPos.Unsigned.to_uint_nonnil p) as Hnil.
    unfold NilZero.string_of_int.
    rewrite string_of_uint_nonnil by assumption.
    split; [reflexivity|]. split; [simpl; lia|].
    intros Hr fuel. rewrite append_cons. cbn -[parse_digits].
    exact (parse_digits_pos true p r Hr).
Qed.

(** *** Arrays and objects *)

Lemma stringify_arr l :
  stringify (VArr l) = Some ("[" +:+ join "," (List.map item l) +:+ "]").
Proof. reflexivity. Qed.

Lemma stringify_obj ps :
  stringify (VObj ps) = Some ("{" +:+ join "," (List.flat_map member ps) +:+ "}").
Proof. reflexivity. Qed.

Lemma stringify_json v : json_value v = true -> exists t, stringify v = Some t.
Proof. destruct v as [| |[|]| | | |]; simpl; intros; try discriminate; eauto. Qed.

Lemma stringify_head v t :
  stringify v = Some t -> value_head t = true /\ (1 <= String.length t)%nat.
Proof.
  destruct v as [| |[|]|n| | |]; simpl; intros [= <-];
    try (split; [reflexivity | simpl; lia]).
  destruct (string_of_Z_head n "") as (? & ? & _). now split.
Qed.

Lemma join_cons (x : string) (l : list string) :
  l <> [] -> join "," (x :: l) = x +:+ "," +:+ join "," l.
Proof. destruct l; [congruence | reflexivity]. Qed.

Lemma obj_set_fresh acc k v :
  k ∉ List.map fst acc -> obj_set acc k v = acc ++ [(k, v)].
Proof.
  induction acc as [|[k' v'] acc IH]; simpl; intros Hk; [reflexivity|].
  destruct (String.eqb_spec k' k) as [->|Hne].
  - exfalso. apply Hk. left.
  - rewrite IH; [reflexivity|]. intros Hin. apply Hk. now right.
Qed.

Lemma parse_elements_print l :
  Forall roundtrips l -> forallb json_value l = true -> l <> [] ->
  forall fuel r,
    (String.length (join "," (List.map item l)) + 1 < fuel)%nat ->
    parse_elements fuel (join "," (List.map item l) +:+ "]" +:+ r) = POk (l, r).
Proof.
  induction 1 as [|x l Hx Hl IH]; [congruence|].
  intros Hwf _ fuel r Hfuel. simpl in Hwf.
  apply andb_prop in Hwf as [Hwx Hwl].
  destruct (stringify_json x Hwx) as [t Ht].
  destruct (stringify_head x t Ht) as [Hhead Hlen].
  assert (Hitem : item x = t) by (unfold item; now rewrite Ht).
  destruct fuel as [|fuel]; [lia|].
  destruct l as [|y l].
  - simpl List.map in *. simpl join in *. rewrite Hitem in *.
    cbn [parse_elements].
    rewrite (Hx Hwx t fuel ("]" +:+ r) Ht) by (trivial; lia).
    reflexivity.
  - change (List.map item (x :: y :: l)) with (item x :: List.map item (y :: l)) in *.
    rewrite join_cons in * by discriminate.
    rewrite Hitem in *. rewrite !length_append in Hfuel. cbn [String.length] in Hfuel.
    rewrite !append_assoc. cbn [parse_elements].
    rewrite (Hx Hwx t fuel _ Ht) by (trivial; lia).
    rewrite append_cons, append_nil_l. cbn [skip_ws is_ws]. simpl.
    assert (Hy : value_head (join "," (List.map item (y :: l))) = true).
    { simpl in Hwl. apply andb_prop in Hwl as [Hwy _].
      destruct (stringify_json y Hwy) as [ty Hty].
      destruct (stringify_head y ty Hty) as [Hh _].
      change (List.map item (y :: l)) with (item y :: List.map item l).
      unfold item at 1. rewrite Hty.
      destruct ty as [|c ty]; [discriminate|].
      destruct (List.map item l); exact Hh. }
    rewrite skip_ws_head by exact Hy.
    rewrite IH; [reflexivity | assumption | discriminate | lia].
Qed.

Lemma member_json kv :
  json_value (snd kv) = true ->
  exists t, stringify (snd kv) = Some t
            /\ member kv = [quote (fst kv) +:+ ":" +:+ t].
Proof.
  intros H. destruct (stringify_json _ H) as [t Ht].
  exists t. split; [assumption|]. unfold member. now rewrite Ht.
Qed.

Lemma members_nonempty ps :
  forallb (fun kv => json_value (snd kv)) ps = true -> ps <> [] ->
  List.flat_map member ps <> [].
Proof.
  destruct ps as [|kv ps]; [congruence|]. simpl. intros H _.
  apply andb_prop in H as [H _].
  destruct (member_json kv H) as (t & _ & ->). discriminate.
Qed.

Lemma parse_members_print ps :
  Forall (fun kv => roundtrips (snd kv)) ps ->
  forallb (fun kv => json_value (snd kv)) ps = true -> ps <> [] ->
  forall fuel acc r,
    NoDup (List.map fst (acc ++ ps)) ->
    (String.length (join "," (List.flat_map member ps)) + 1 < fuel)%nat ->
    parse_members fuel acc (join "," (List.flat_map member ps) +:+ "}" +:+ r)
    = POk (acc ++ ps, r).
Proof.
  induction 1 as [|[k v] ps Hx Hl IH]; [congruence|].
  intros Hwf _ fuel acc r Hnd Hfuel. simpl in Hwf, Hx.
  apply andb_prop in Hwf as [Hwx Hwl].
  destruct (member_json (k, v) Hwx) as (t & Ht & Hm). simpl in Ht, Hm.
  destruct (stringify_head v t Ht) as [Hhead Hlen].
  assert (Hfresh : k ∉ List.map fst acc).
  { rewrite List.map_app in Hnd. apply NoDup_app in Hnd as (_ & Hd & _).
    intros Hin. apply (Hd k Hin). left. }
  assert (Hnd' : NoDup (List.map fst ((acc ++ [(k, v)]) ++ ps))).
  { now rewrite <- List.app_assoc. }
  destruct fuel as [|fuel]; [lia|].
  change (List.flat_map member ((k, v) :: ps))
    with (member (k, v) ++ List.flat_map member ps) in *.
  rewrite Hm in *. simpl app in *.
  destruct ps as [|kv' ps].
  - simpl List.flat_map in *. simpl join in *.
    rewrite !length_append in Hfuel. cbn [String.length] in Hfuel.
    rewrite !append_assoc, quote_append.
    cbn [parse_members]. rewrite Ascii.eqb_refl.
    rewrite ?append_assoc, parse_chars_escape.
    rewrite append_cons, append_nil_l. cbn [skip_ws is_ws]. simpl.
    rewrite skip_ws_head by exact Hhead.
    rewrite (Hx Hwx t fuel ("}" +:+ r) Ht) by (trivial; lia).
    rewrite append_cons, append_nil_l. cbn [skip_ws is_ws]. simpl.
    now rewrite obj_set_fresh.
  - assert (Hne : List.flat_map member (kv' :: ps) <> [])
      by (apply members_nonempty; [assumption | discriminate]).
    rewrite join_cons in * by exact Hne.
    rewrite !length_append in Hfuel. cbn [String.length] in Hfuel.
    rewrite !append_assoc, quote_append.
    cbn [parse_members]. rewrite Ascii.eqb_refl.
    rewrite ?append_assoc, parse_chars_escape.
    rewrite append_cons, append_nil_l. cbn [skip_ws is_ws]. simpl.
    rewrite skip_ws_head by exact Hhead.
    rewrite (Hx Hwx t fuel _ Ht) by (trivial; lia).
    rewrite append_cons, append_nil_l. cbn [skip_ws is_ws]. simpl.
    assert (Hy : value_head (join "," (List.flat_map member (kv' :: ps))) = true).
    { simpl in Hwl. apply andb_prop in Hwl as [Hwy _].
      destruct (member_json kv' Hwy) as (ty & _ & Hmy).
      change (List.flat_map member (kv' :: ps))
        with (member kv' ++ List.flat_map member ps).
      rewrite Hmy. simpl app. destruct (List.flat_map member ps); reflexivity. }
    rewrite skip_ws_head by exact Hy.
    rewrite obj_set_fresh by assumption.
    rewrite IH; [now rewrite <- List.app_assoc | assumption | discriminate
                | assumption | lia].
Qed.

Lemma parse_value_print v : roundtrips v.
Proof.
  induction v as [| | | | |l IH|ps IH] using value_rect_deep;
    intros Hwf t fuel r Ht Hfuel Hr.
  - discriminate.
  - injection Ht as <-. destruct fuel; [lia | reflexivity].
  - destruct b; injection Ht as <-; (destruct fuel; [lia | reflexivity]).
  - injection Ht as <-. destruct fuel as [|fuel]; [lia|].
    now apply string_of_Z_head.
  - injection Ht as <-. destruct fuel as [|fuel]; [lia|].
    rewrite quote_append. cbn [parse_value]. simpl.
    now rewrite parse_chars_escape.
  - rewrite stringify_arr in Ht. injection Ht as <-.
    destruct fuel as [|fuel]; [lia|].
    rewrite !length_append in Hfuel. cbn [String.length] in Hfuel.
    rewrite !append_assoc, append_cons, append_nil_l.
    cbn [parse_value]. simpl.
    destruct l as [|x l].
    + reflexivity.
    + simpl in Hwf.
      assert (Hh : value_head (join "," (List.map item (x :: l))) = true).
      { apply andb_prop in Hwf as [Hwx _].
        destruct (stringify_json x Hwx) as [tx Htx].
        destruct (stringify_head x tx Htx) as [Hh _].
        change (List.map item (x :: l)) with (item x :: List.map item l).
        unfold item at 1. rewrite Htx.
        destruct tx as [|c tx]; [discriminate|].
        destruct (List.map item l); exact Hh. }
      rewrite skip_ws_head by exact Hh.
      pose proof (parse_elements_print (x :: l) IH Hwf ltac:(discriminate)
                    fuel r ltac:(lia)) as Hp.
      destruct (join "," (List.map item (x :: l)) +:+ "]" +:+ r) as [|c' r'] eqn:E.
      { destruct (join "," (List.map item (x :: l))); discriminate. }
      assert (Hc : Ascii.eqb c' "]" = false).
      { destruct (join "," (List.map item (x :: l))) as [|c0 s0]; [discriminate|].
        rewrite append_cons in E. injection E as <- _.
        simpl in Hh. apply andb_prop in Hh as [Hh _].
        apply andb_prop in Hh as [_ Hh]. now apply negb_true_iff in Hh. }
      rewrite Hc, Hp. reflexivity.
  - rewrite stringify_obj in Ht. injection Ht as <-.
    destruct fuel as [|fuel]; [lia|].
    rewrite !length_append in Hfuel. cbn [String.length] in Hfuel.
    rewrite !append_assoc, append_cons, append_nil_l.
    cbn [parse_value]. simpl.
    destruct ps as [|kv ps].
    + reflexivity.
    + simpl in Hwf. apply andb_prop in Hwf as [Hwf Hnd].
      apply bool_decide_eq_true in Hnd.
      assert (Hh : value_head (join "," (List.flat_map member (kv :: ps))) = true).
      { simpl in Hwf. apply andb_prop in Hwf as [Hwx _].
        destruct (member_json kv Hwx) as (ty & _ & Hmy).
        change (List.flat_map member (kv :: ps))
          with (member kv ++ List.flat_map member ps).
        rewrite Hmy. simpl app. destruct (List.flat_map member ps); reflexivity. }
      rewrite skip_ws_head by exact Hh.
      pose proof (parse_members_print (kv :: ps) IH Hwf ltac:(discriminate)
                    fuel [] r Hnd ltac:(lia)) as Hp.
      destruct (join "," (List.flat_map member (kv :: ps)) +:+ "}" +:+ r)
        as [|c' r'] eqn:E.
      { destruct (join "," (List.flat_map member (kv :: ps))); discriminate. }
      assert (Hc : Ascii.eqb c' "}" = false).
      { destruct (join "," (List.flat_map member (kv :: ps))) as [|c0 s0];
          [discriminate|].
        rewrite append_cons in E. injection E as <- _.
        simpl in Hh. apply andb_prop in Hh as [_ Hh].
        now apply negb_true_iff in Hh. }
      rewrite Hc, Hp. reflexivity.
Qed.

Lemma append_nil_r (a : string) : a +:+ "" = a.
Proof.
  induction a as [|c a IH]; [reflexivity|]. now rewrite append_cons, IH.
Qed.

(** [JSON.parse(JSON.stringify(v))] is [v] for a JSON-representable [v]. *)
Theorem parse_stringify v t :
  json_value v = true -> stringify v = Some t -> parse t = POk v.
Proof.
  intros Hwf Ht. unfold parse.
  destruct (stringify_head v t Ht) as [Hh _].
  rewrite <- (append_nil_r t) at 2.
  rewrite skip_ws_head by exact Hh.
  rewrite (parse_value_print v Hwf t _ "" Ht) by (trivial; lia).
  reflexivity.
Qed.

End JSONFacts.

(** * The module's functions *)

Import SimpleStorage.
Local Close Scope string_scope.

#[local] Arguments JSON.parse : simpl never.
#[local] Arguments JSON.stringify : simpl never.

Ltac unfold_monad :=
  unfold bind, ret, gets, modify, throw, beyond in *.

Section Properties.
Context {U : Type} {H : Host}.
Implicit Types (st : State U) (key event : string) (v data : value)
  (cb : callback U) (cbs : list (callback U)) (now : Z).

(** ** Conversions to a string *)

Lemma stringable_serialize v : stringable (serialize v) = true.
Proof. unfold serialize. now destruct (JSON.stringify v). Qed.

Lemma JSON_parse_text t :
  JSON_parse (U:=U) (VStr t)
  = match JSON.parse t with
    | JSON.POk v => ret v
    | JSON.PSyntaxError => throw SyntaxError
    | JSON.PBeyond => beyond
    end.
Proof. reflexivity. Qed.

Lemma localStorage_setItem_stringable key x :
  stringable x = true ->
  localStorage_setItem (U:=U) key x
  = modify (with_localStorage (insert key (ToString x))).
Proof.
  intros Hx. unfold localStorage_setItem, js_String. now rewrite Hx.
Qed.

Lemma localStorage_setItem_serialize key v :
  localStorage_setItem (U:=U) key (serialize v)
  = modify (with_localStorage (insert key (ToString (serialize v)))).
Proof. apply localStorage_setItem_stringable, stringable_serialize. Qed.

(** ** Subscribers and the event bus *)

Lemma with_subscribers_same st : with_subscribers (subscribers st) st = st.
Proof. now destruct st. Qed.

(** Running subscribers changes nothing but what they own. *)
Lemma forEach_outcome cbs data st :
  exists u,
    forEach cbs data st = Return tt (with_subscribers u st)
    \/ exists e, forEach cbs data st = Throw e (with_subscribers u st).
Proof.
  revert st. induction cbs as [|cb cbs IH]; intros st.
  - exists (subscribers st). left. simpl. unfold ret.
    now rewrite with_subscribers_same.
  - simpl. destruct (cb data (subscribers st)) as [u|e u].
    + destruct (IH (with_subscribers u st)) as [u' Hu']. exists u'. exact Hu'.
    + exists u. right. now exists e.
Qed.

Lemma triggerEvent_outcome event data st :
  exists u,
    triggerEvent event data st = Return tt (with_subscribers u st)
    \/ exists e, triggerEvent event data st = Throw e (with_subscribers u st).
Proof.
  unfold triggerEvent. unfold_monad.
  destruct (listeners_of (eventListeners st) event) as [cbs|].
  - apply forEach_outcome.
  - exists (subscribers st). rewrite with_subscribers_same.
    destruct (inherited event); [right; now exists TypeError | now left].
Qed.

Lemma forEach_completes cbs data st u' :
  completes cbs data (subscribers st) = Some u' ->
  forEach cbs data st = Return tt (with_subscribers u' st).
Proof.
  revert st. induction cbs as [|cb cbs IH]; intros st; simpl.
  - intros [= <-]. unfold ret. now rewrite with_subscribers_same.
  - destruct (cb data (subscribers st)) as [u|e u]; [|discriminate].
    intros Hc. now rewrite (IH (with_subscribers u st)).
Qed.

Lemma forEach_stops pre cb post data st u e u' :
  completes pre data (subscribers st) = Some u ->
  cb data u = Abrupt e u' ->
  forEach (pre ++ cb :: post) data st = Throw e (with_subscribers u' st).
Proof.
  revert st. induction pre as [|c pre IH]; intros st; simpl.
  - intros [= <-] ->. reflexivity.
  - destruct (c data (subscribers st)) as [u0|e0 u0]; [|discriminate].
    intros Hc Hcb. now rewrite (IH (with_subscribers u0 st)).
Qed.

(** ** Writing and reading an item *)

Lemma serialize_string t : serialize (VStr t) = VStr (JSON.quote t).
Proof. reflexivity. Qed.

Lemma stringify_item stored d :
  exists t, JSON.stringify (VObj [("value", stored); ("expiry", d)]) = Some t
            /\ String.eqb t "" = false.
Proof. rewrite JSONFacts.stringify_obj. eexists. split; reflexivity. Qed.

(** What [setItem] leaves behind when the cipher is not asked for: the
    text of the item under the key, a log entry, and what the subscribers
    of [set] did, whether one of them threw or not. *)
Lemma setItem_outcome key v options now st tv d :
  JSON.stringify v = Some tv ->
  truthy (encrypt options) && truthy (secret options) = false ->
  (forall st', (if truthy (expiry options)
                then time_plus now (expiry options) else ret VNull) st'
               = Return d st') ->
  exists t u,
    JSON.stringify
      (VObj [("value", VStr (if truthy (compress options)
                             then compressToUTF16 (JSON.quote tv) else tv));
             ("expiry", d)]) = Some t
    /\ state_of (setItem key v options now st)
       = Some (with_subscribers u
                 (with_logs (fun g => g ++ [{| action := "set";
                                               details := key_value key v;
                                               timestamp := now |}])
                    (with_localStorage (insert key t) st))).
Proof.
  intros Hv Henc Hd.
  destruct (stringify_item
              (VStr (if truthy (compress options)
                     then compressToUTF16 (JSON.quote tv) else tv)) d)
    as (t & Ht & _).
  exists t.
  unfold setItem, serialize. rewrite Hv, Henc.
  unfold bind at 1. unfold ret at 1. unfold bind at 1.
  assert (Hc : (if truthy (compress options)
                then compressData (VStr tv) else ret (VStr tv)) st
               = Return (VStr (if truthy (compress options)
                               then compressToUTF16 (JSON.quote tv) else tv)) st).
  { destruct (truthy (compress options)); reflexivity. }
  rewrite Hc. unfold bind at 1. rewrite Hd, Ht.
  unfold localStorage_setItem, js_String, logAction.
  cbn [stringable ToString]. unfold_monad.
  match goal with
  | |- context [triggerEvent ?e ?p ?s] =>
      destruct (triggerEvent_outcome e p s) as [u [Hu|[e' Hu]]];
      exists u; rewrite Hu
  end; (split; reflexivity).
Qed.

Lemma setItem_state key v options now st tv d st1 :
  JSON.stringify v = Some tv ->
  truthy (encrypt options) && truthy (secret options) = false ->
  (forall st', (if truthy (expiry options)
                then time_plus now (expiry options) else ret VNull) st'
               = Return d st') ->
  state_of (setItem key v options now st) = Some st1 ->
  exists t,
    JSON.stringify
      (VObj [("value", VStr (if truthy (compress options)
                             then compressToUTF16 (JSON.quote tv) else tv));
             ("expiry", d)]) = Some t
    /\ localStorage st1 = <[key := t]> (localStorage st)
    /\ memoryCache st1 = memoryCache st
    /\ eventListeners st1 = eventListeners st.
Proof.
  intros Hv Henc Hd Hst.
  destruct (setItem_outcome key v options now st tv d Hv Henc Hd)
    as (t & u & Ht & Hs).
  rewrite Hs in Hst. injection Hst as <-.
  exists t. repeat split. exact Ht.
Qed.

(** Reading a key that holds the text of an item [{value, expiry}]. *)
Lemma getItem_item key options now st t stored d :
  localStorage st !! key = Some t ->
  JSON.stringify (VObj [("value", stored); ("expiry", d)]) = Some t ->
  json_value stored = true -> json_value d = true ->
  getItem key options now st
  = (let* expired :=
       if truthy d then time_after now d else ret false in
     if expired : bool then
       localStorage_removeItem key ;;
       logAction "remove" (key_only key) now ;;
       ret VNull
     else
       let* value :=
         if truthy (decompress options) then decompressData stored
         else ret stored in
       let* value :=
         if truthy (encrypt options) && truthy (secret options)
         then decrypt value (secret options)
         else ret value in
       deserialize value) st.
Proof.
  intros Hk Ht Hs Hd.
  destruct (stringify_item stored d) as (t' & Ht' & Hne).
  rewrite Ht in Ht'. injection Ht' as <-.
  assert (Hp : JSON.parse t = JSON.POk (VObj [("value", stored); ("expiry", d)])).
  { apply JSONFacts.parse_stringify; [|exact Ht].
    simpl. rewrite Hs, Hd. reflexivity. }
  unfold getItem. unfold bind at 1. unfold localStorage_getItem, gets.
  rewrite Hk. unfold bind at 1. unfold deserialize at 1.
  cbn [truthy]. rewrite Hne. cbn [negb]. rewrite JSON_parse_text.
  rewrite Hp. unfold ret at 1.
  reflexivity.
Qed.

Lemma getItem_absent key options now st :
  localStorage st !! key = None ->
  getItem key options now st = Return VNull st.
Proof.
  intros Hk. unfold getItem. unfold bind at 1.
  unfold localStorage_getItem, gets. rewrite Hk. reflexivity.
Qed.

Lemma deserialize_stringify v tv st :
  json_value v = true -> JSON.stringify v = Some tv ->
  deserialize (U:=U) (VStr tv) st = Return v st.
Proof.
  intros Hwf Hv.
  assert (Hne : String.eqb tv "" = false).
  { destruct (JSONFacts.stringify_head v tv Hv) as [_ Hl].
    destruct tv; [simpl in Hl; lia | reflexivity]. }
  unfold deserialize. cbn [truthy]. rewrite Hne. cbn [negb].
  rewrite JSON_parse_text.
  now rewrite (JSONFacts.parse_stringify v tv Hwf Hv).
Qed.

(** Decoding what [setItem] stored without compression. *)
Lemma decode_plain v tv options st :
  json_value v = true ->
  JSON.stringify v = Some tv ->
  truthy (decompress options) = false ->
  truthy (encrypt options) && truthy (secret options) = false ->
  (let* value :=
     if truthy (decompress options) then decompressData (VStr tv)
     else ret (VStr tv) in
   let* value :=
     if truthy (encrypt options) && truthy (secret options)
     then decrypt value (secret options)
     else ret value in
   deserialize value) st = Return v st.
Proof.
  intros Hwf Hv Hc Henc. rewrite Hc, Henc.
  unfold bind, ret at 1. unfold ret at 1.
  now apply deserialize_stringify.
Qed.

(** Decoding what [setItem] stored with compression, when the library
    undoes its own compression. *)
Lemma decode_compressed `{!HostLaws H} v tv options st :
  json_value v = true ->
  JSON.stringify v = Some tv ->
  truthy (decompress options) = true ->
  truthy (encrypt options) && truthy (secret options) = false ->
  (let* value :=
     if truthy (decompress options)
     then decompressData (VStr (compressToUTF16 (JSON.quote tv)))
     else ret (VStr (compressToUTF16 (JSON.quote tv))) in
   let* value :=
     if truthy (encrypt options) && truthy (secret options)
     then decrypt value (secret options)
     else ret value in
   deserialize value) st = Return v st.
Proof.
  intros Hwf Hv Hc Henc. rewrite Hc, Henc.
  unfold bind at 1. unfold decompressData.
  rewrite decompress_compress.
  rewrite (deserialize_stringify (VStr tv) (JSON.quote tv) st eq_refl eq_refl).
  unfold bind, ret at 1. now apply deserialize_stringify.
Qed.

(** Without the cipher and without a deadline, what [setItem] wrote is
    what [getItem] reads, compressed or not. *)
Lemma getItem_setItem_no_cipher `{!HostLaws H}
    key v options options' now now' st st1 :
  json_value v = true ->
  truthy (encrypt options) && truthy (secret options) = false ->
  truthy (encrypt options') && truthy (secret options') = false ->
  truthy (expiry options) = false ->
  truthy (decompress options') = truthy (compress options) ->
  state_of (setItem key v options now st) = Some st1 ->
  getItem key options' now' st1 = Return v st1.
Proof.
  intros Hwf Henc Henc' Hex Hc Hst.
  destruct (JSONFacts.stringify_json v Hwf) as [tv Hv].
  destruct (setItem_state key v options now st tv VNull st1 Hv Henc) as
    (t & Ht & Hls & _); [now rewrite Hex | exact Hst |].
  assert (Hk : localStorage st1 !! key = Some t)
    by (rewrite Hls; apply lookup_insert_eq).
  rewrite (getItem_item key options' now' st1 t _ VNull Hk Ht eq_refl eq_refl).
  cbn [truthy]. unfold bind at 1. unfold ret at 1.
  destruct (truthy (compress options)) eqn:Ec.
  - now apply decode_compressed.
  - now apply decode_plain.
Qed.

(** ** The properties of the specification *)

(** [C1] The round trip fails when [encrypt] and [secret] are passed:
    inside [setItem] the option [encrypt] hides the module's function, the
    call [encrypt(storedValue, secret)] applies a value that is not a
    function, and [setItem] throws [TypeError] before anything is stored, in
    both listings; on a key that held nothing, [getItem] then returns
    [null] and not the value. *)
Theorem setItem_encrypt_throws key v options options' now now' st :
  truthy (encrypt options) = true ->
  truthy (secret options) = true ->
  setItem key v options now st = Throw TypeError st
  /\ SimpleStorageDirect.setItem key v options now st = Throw TypeError st
  /\ (localStorage st !! key = None ->
      getItem key options' now' st = Return VNull st).
Proof.
  intros He Hs. split; [|split].
  - unfold setItem. rewrite He, Hs. reflexivity.
  - unfold SimpleStorageDirect.setItem. rewrite He, Hs. reflexivity.
  - apply getItem_absent.
Qed.

(** [C2] With [expiry = 0] no deadline is stored and every later read
    returns the value.  With [expiry = 10000] written at [t0], a read up
    to [t0 + 10000] (so at [t0 + 9999]) returns the value, and a read
    after it (so at [t0 + 10001]) returns [null] and removes the key. *)
Theorem expiry_boundary key v t0 st :
  json_value v = true ->
  0 <= t0 ->
  exists st0 st1,
    state_of (setItem key v (Run.expires_in 0) t0 st) = Some st0
    /\ state_of (setItem key v (Run.expires_in 10000) t0 st) = Some st1
    /\ (forall t, getItem key no_options t st0 = Return v st0)
    /\ getItem key no_options (t0 + 9999) st1 = Return v st1
    /\ (forall t, t <= t0 + 10000 -> getItem key no_options t st1 = Return v st1)
    /\ localStorage
         (after (getItem key no_options (t0 + 10001) st1) st1) !! key = None
    /\ (forall t, t0 + 10000 < t ->
          getItem key no_options t st1
          = Return VNull
              (with_logs (fun l => l ++ [{| action := "remove";
                                            details := key_only key;
                                            timestamp := t |}])
                 (with_localStorage (delete key) st1))).
Proof.
  intros Hwf Ht0.
  destruct (JSONFacts.stringify_json v Hwf) as [tv Hv].
  destruct (setItem_outcome key v (Run.expires_in 0) t0 st tv VNull Hv eq_refl)
    as (ta & ua & Hta & Hsa); [reflexivity|].
  destruct (setItem_outcome key v (Run.expires_in 10000) t0 st tv
              (VNum (t0 + 10000)) Hv eq_refl)
    as (tb & ub & Htb & Hsb); [reflexivity|].
  cbn [Run.expires_in compress truthy] in Hta, Htb.
  eexists. eexists. split; [exact Hsa|]. split; [exact Hsb|].
  match type of Hsa with _ = Some ?s => set (st0 := s) end.
  match type of Hsb with _ = Some ?s => set (st1 := s) end.
  assert (Hka : localStorage st0 !! key = Some ta) by apply lookup_insert_eq.
  assert (Hkb : localStorage st1 !! key = Some tb) by apply lookup_insert_eq.
  assert (Hnz : (t0 + 10000 =? 0) = false) by (apply Z.eqb_neq; lia).
  assert (Hfresh : forall t, t <= t0 + 10000 ->
                     getItem key no_options t st1 = Return v st1).
  { intros t Ht.
    rewrite (getItem_item key no_options t st1 tb (VStr tv) _ Hkb Htb eq_refl eq_refl).
    cbn [truthy]. rewrite Hnz. cbn [negb time_after].
    unfold bind at 1. unfold ret at 1.
    replace (t0 + 10000 <? t) with false by (symmetry; apply Z.ltb_ge; lia).
    now apply decode_plain. }
  assert (Hstale : forall t, t0 + 10000 < t ->
            getItem key no_options t st1
            = Return VNull
                (with_logs (fun l => l ++ [{| action := "remove";
                                              details := key_only key;
                                              timestamp := t |}])
                   (with_localStorage (delete key) st1))).
  { intros t Ht.
    rewrite (getItem_item key no_options t st1 tb (VStr tv) _ Hkb Htb eq_refl eq_refl).
    cbn [truthy]. rewrite Hnz. cbn [negb time_after].
    unfold bind at 1. unfold ret at 1.
    replace (t0 + 10000 <? t) with true by (symmetry; apply Z.ltb_lt; lia).
    reflexivity. }
  split; [|split; [|split; [|split]]].
  - intros t.
    rewrite (getItem_item key no_options t st0 ta (VStr tv) VNull Hka Hta eq_refl eq_refl).
    cbn [truthy]. unfold bind at 1. unfold ret at 1.
    now apply decode_plain.
  - apply Hfresh. lia.
  - exact Hfresh.
  - rewrite Hstale by lia. unfold after. cbn [state_of].
    cbn [localStorage with_logs with_localStorage]. apply lookup_delete_eq.
  - exact Hstale.
Qed.

Lemma setItemWithLimit_step key v limit now st l :
  reads_as_items (localStorage st !! key) l ->
  exists t',
    JSON.stringify
      (VArr ((if (limit <=? Z.of_nat (length l))%Z then tl l else l) ++ [v]))
    = Some t'
    /\ setItemWithLimit key v limit now st
       = Return tt
           (with_logs (fun g => g ++ [{| action := "setItemWithLimit";
                                         details := key_value key v;
                                         timestamp := now |}])
              (with_localStorage (insert key t') st)).
Proof.
  intros Hr. rewrite JSONFacts.stringify_arr. eexists. split; [reflexivity|].
  unfold setItemWithLimit. unfold bind at 1.
  unfold localStorage_getItem, gets.
  assert (Hp : exists x, JSON_parse (U:=U)
                           (match localStorage st !! key with
                            | Some t => VStr t
                            | None => VNull
                            end) st = Return x st
                         /\ js_or x (VArr []) = VArr l).
  { unfold reads_as_items in Hr.
    destruct (localStorage st !! key) as [t|].
    - rewrite JSON_parse_text.
      destruct Hr as [Hp|(x & Hp & Hx & ->)]; rewrite Hp.
      + exists (VArr l). split; reflexivity.
      + exists x. split; [reflexivity|]. unfold js_or. now rewrite Hx.
    - subst l. exists VNull. split; reflexivity. }
  destruct Hp as (x & Hx & Hor).
  unfold bind at 1. rewrite Hx, Hor.
  unfold bind at 1. cbn [js_length js_ge]. unfold ret at 1.
  unfold bind at 1.
  destruct (limit <=? Z.of_nat (length l))%Z;
    cbn [array_shift]; unfold ret at 1;
    unfold bind at 1; cbn [array_push]; unfold ret at 1;
    unfold serialize; rewrite JSONFacts.stringify_arr; reflexivity.
Qed.

(** [C3] [setItemWithLimit] reads the stored text as JSON; nothing stored
    or a falsy value counts as the empty sequence.  When the length has
    reached [limit] it drops the element at index 0, then appends the
    value and stores the result.  The result stays within [limit] when
    the stored sequence did and [limit] is at least 1; three calls at
    limit 2 on a key that held nothing leave the last two values. *)
Theorem setItemWithLimit_fifo key v1 v2 v3 limit now st l :
  reads_as_items (localStorage st !! key) l ->
  json_value v1 = true -> json_value v2 = true -> json_value v3 = true ->
  (exists t',
      JSON.stringify
        (VArr ((if (limit <=? Z.of_nat (length l))%Z then tl l else l) ++ [v1]))
      = Some t'
      /\ setItemWithLimit key v1 limit now st
         = Return tt
             (with_logs (fun g => g ++ [{| action := "setItemWithLimit";
                                           details := key_value key v1;
                                           timestamp := now |}])
                (with_localStorage (insert key t') st)))
  /\ (Z.of_nat (length l) <= limit -> 1 <= limit ->
      Z.of_nat (length ((if (limit <=? Z.of_nat (length l))%Z
                         then tl l else l) ++ [v1])) <= limit)
  /\ (l = [] ->
      exists st3,
        (setItemWithLimit key v1 2 now ;;
         setItemWithLimit key v2 2 now ;;
         setItemWithLimit key v3 2 now) st = Return tt st3
        /\ Some <$> localStorage st3 !! key = Some (JSON.stringify (VArr [v2; v3]))).
Proof.
  intros Hr H1 H2 H3. split; [|split].
  - apply setItemWithLimit_step. exact Hr.
  - intros Hlen Hlim. rewrite length_app. cbn [length].
    destruct (Z.leb_spec limit (Z.of_nat (length l))).
    + destruct l as [|x l]; cbn [tl length] in *; lia.
    + lia.
  - intros ->.
    destruct (setItemWithLimit_step key v1 2 now st [] Hr) as (t1 & Ht1 & Hs1).
    change (2 <=? Z.of_nat (length (@nil value)))%Z with false in Ht1, Hs1.
    cbn [tl app] in Ht1, Hs1.
    set (st1 := with_logs _ (with_localStorage (insert key t1) st)) in Hs1.
    assert (Hr1 : reads_as_items (localStorage st1 !! key) [v1]).
    { subst st1. cbn [localStorage with_logs with_localStorage].
      rewrite lookup_insert_eq. left.
      apply JSONFacts.parse_stringify; [|exact Ht1]. simpl. now rewrite H1. }
    destruct (setItemWithLimit_step key v2 2 now st1 [v1] Hr1) as (t2 & Ht2 & Hs2).
    change (2 <=? Z.of_nat (length [v1]))%Z with false in Ht2, Hs2.
    cbn [tl app] in Ht2, Hs2.
    set (st2 := with_logs _ (with_localStorage (insert key t2) st1)) in Hs2.
    assert (Hr2 : reads_as_items (localStorage st2 !! key) [v1; v2]).
    { subst st2. cbn [localStorage with_logs with_localStorage].
      rewrite lookup_insert_eq. left.
      apply JSONFacts.parse_stringify; [|exact Ht2]. simpl. now rewrite H1, H2. }
    destruct (setItemWithLimit_step key v3 2 now st2 [v1; v2] Hr2) as (t3 & Ht3 & Hs3).
    change (2 <=? Z.of_nat (length [v1; v2]))%Z with true in Ht3, Hs3.
    cbn [tl app] in Ht3, Hs3.
    eexists. split.
    + unfold bind. rewrite Hs1, Hs2, Hs3. reflexivity.
    + cbn [localStorage with_logs with_localStorage].
      rewrite lookup_insert_eq, Ht3. reflexivity.
Qed.

(** [C4] The subscribers of an event run one after the other in the order
    [on] registered them, each on what the one before left; when one
    throws, the exception leaves [triggerEvent] at once and the
    subscribers after it are not run. *)
Theorem triggerEvent_in_order event data st pre cb post u :
  listeners_of (eventListeners st) event = Some (pre ++ cb :: post) ->
  completes pre data (subscribers st) = Some u ->
  (forall e u', cb data u = Abrupt e u' ->
     triggerEvent event data st = Throw e (with_subscribers u' st))
  /\ (forall u1 u2, cb data u = Normal u1 -> completes post data u1 = Some u2 ->
        triggerEvent event data st = Return tt (with_subscribers u2 st))
  /\ (forall cb' st', state_of (on event cb' st) = Some st' ->
        listeners_of (eventListeners st') event
        = Some ((pre ++ cb :: post) ++ [cb'])).
Proof.
  intros Hl Hpre. split; [|split].
  - intros e u' Hcb. unfold triggerEvent. unfold_monad. rewrite Hl.
    now apply (forEach_stops pre cb post data st u e u').
  - intros u1 u2 Hcb Hpost. unfold triggerEvent. unfold_monad. rewrite Hl.
    apply forEach_completes.
    clear Hl. revert Hpre. generalize (subscribers st).
    induction pre as [|c pre IH]; intros u0; simpl.
    + intros [= ->]. now rewrite Hcb.
    + destruct (c data u0); [apply IH | discriminate].
  - intros cb' st'. unfold on. unfold_monad. rewrite Hl.
    cbn [state_of]. intros [= <-]. revert Hl.
    unfold listeners_of. cbn [eventListeners with_eventListeners].
    destruct (String.eqb event "set") eqn:E1.
    { intros [= Hl]. cbn [set]. now rewrite Hl. }
    destruct (String.eqb event "remove") eqn:E2.
    { intros [= Hl]. cbn [remove]. now rewrite Hl. }
    destruct (String.eqb event "clear") eqn:E3; [|discriminate].
    intros [= Hl]. cbn [clear]. now rewrite Hl.
Qed.

(** [C5] For an event name other than [set], [remove] and [clear],
    [eventListeners[event]] is [undefined] and [on] throws [TypeError];
    the subscriber lists, like the rest of the state, stay as they
    were. *)
Theorem on_unknown_event event cb st :
  event <> "set" -> event <> "remove" -> event <> "clear" ->
  on event cb st = Throw TypeError st.
Proof.
  intros H1 H2 H3. unfold on, listeners_of. unfold_monad.
  apply String.eqb_neq in H1, H2, H3. now rewrite H1, H2, H3.
Qed.

(** [C6] A key that holds nothing reads as [null], and so does a key that
    holds the empty text, or the text of a JSON value that is falsy or has
    neither [expiry] nor [value] (when no cipher is asked for).  A text
    that is not empty and that [JSON.parse] rejects makes [getItem] throw
    [SyntaxError] to the caller, with nothing changed, in both listings.
    With a secret that does not fit, the outcome is the cipher's: [null]
    when it gives the empty text, its exception when it throws. *)
Theorem getItem_absent_or_invalid key options now st :
  (localStorage st !! key = None ->
   getItem key options now st = Return VNull st)
  /\ (localStorage st !! key = Some "" ->
      getItem key options now st = Return VNull st)
  /\ (forall raw x,
        localStorage st !! key = Some raw ->
        JSON.parse raw = JSON.POk x ->
        truthy x = false
        \/ (get_prop x "expiry" = VUndefined
            /\ get_prop x "value" = VUndefined
            /\ truthy (encrypt options) && truthy (secret options) = false) ->
        getItem key options now st = Return VNull st)
  /\ (forall raw,
        raw <> "" ->
        localStorage st !! key = Some raw ->
        JSON.parse raw = JSON.PSyntaxError ->
        getItem key options now st = Throw SyntaxError st
        /\ SimpleStorageDirect.getItem key options now st
           = Throw SyntaxError st)
  /\ (forall t c k d,
        localStorage st !! key = Some t ->
        JSON.stringify (VObj [("value", VStr c); ("expiry", d)]) = Some t ->
        json_value d = true -> truthy d = false ->
        truthy (decompress options) = false ->
        truthy (encrypt options) = true ->
        secret options = VStr k -> k <> "" ->
        (AES_decrypt_Utf8 c k = Some "" ->
         getItem key options now st = Return VNull st)
        /\ (AES_decrypt_Utf8 c k = None ->
            getItem key options now st
            = Throw (Thrown (VStr "Malformed UTF-8 data")) st)).
Proof.
  split; [apply getItem_absent|].
  split.
  { intros Hk. unfold getItem. unfold bind at 1.
    unfold localStorage_getItem, gets. rewrite Hk. reflexivity. }
  split.
  { intros raw x Hk Hp Hx.
    assert (Hne : String.eqb raw "" = false).
    { destruct raw; [discriminate Hp | reflexivity]. }
    unfold getItem. unfold bind at 1. unfold localStorage_getItem, gets.
    rewrite Hk. unfold bind at 1. unfold deserialize at 1.
    cbn [truthy]. rewrite Hne. cbn [negb]. rewrite JSON_parse_text, Hp.
    unfold ret at 1.
    destruct (truthy x) eqn:Ex; cbn [negb]; [|reflexivity].
    destruct Hx as [Hx|(He & Hv & Henc)]; [discriminate|].
    rewrite He, Hv, Henc. cbn [truthy].
    destruct (truthy (decompress options)); reflexivity. }
  split.
  { intros raw Hne Hk Hp. apply String.eqb_neq in Hne.
    split; [unfold getItem | unfold SimpleStorageDirect.getItem];
      unfold bind at 1; unfold localStorage_getItem, gets; rewrite Hk;
      unfold deserialize at 1; cbn [truthy]; rewrite Hne; cbn [negb];
      rewrite JSON_parse_text, Hp; reflexivity. }
  intros t c k d Hk Ht Hd Hfalsy Hdc He Hs Hne.
  rewrite (getItem_item key options now st t (VStr c) d Hk Ht eq_refl Hd).
  rewrite Hfalsy, Hdc, He, Hs. cbn [truthy andb].
  apply String.eqb_neq in Hne. rewrite Hne. cbn [negb].
  split; intros Haes; unfold bind, ret, decrypt; now rewrite Haes.
Qed.

(** A secret that does not fit the stored cipher text: when the bytes the
    cipher gives back are not UTF-8, the library's exception reaches the
    caller. *)
Lemma getItem_wrong_secret key options now st t c k d :
  localStorage st !! key = Some t ->
  JSON.stringify (VObj [("value", VStr c); ("expiry", d)]) = Some t ->
  json_value d = true -> truthy d = false ->
  truthy (decompress options) = false ->
  truthy (encrypt options) = true ->
  secret options = VStr k -> k <> "" ->
  AES_decrypt_Utf8 c k = None ->
  getItem key options now st = Throw (Thrown (VStr "Malformed UTF-8 data")) st.
Proof.
  intros Hk Ht Hd Hfalsy Hdc He Hs Hne Haes.
  rewrite (getItem_item key options now st t (VStr c) d Hk Ht eq_refl Hd).
  rewrite Hfalsy, Hdc, He, Hs. cbn [truthy andb].
  apply String.eqb_neq in Hne. rewrite Hne. cbn [negb].
  unfold bind, ret, decrypt. now rewrite Haes.
Qed.

(** ** The cache *)

Lemma memoryCache_set_entry key v st :
  key <> "__proto__" ->
  memoryCache_set key v st = Return tt (with_memoryCache (insert key v) st).
Proof.
  intros Hk. apply String.eqb_neq in Hk. unfold memoryCache_set.
  now rewrite Hk.
Qed.

Lemma memoryCache_set_cases key v st :
  memoryCache_set key v st = Beyond
  \/ (key = "__proto__" /\ memoryCache_set key v st = Return tt st)
  \/ (key <> "__proto__"
      /\ memoryCache_set key v st
         = Return tt (with_memoryCache (insert key v) st)).
Proof.
  destruct (String.eqb_spec key "__proto__") as [->|Hk].
  - destruct v; [right; left | left | right; left ..| left | left];
      try (split; reflexivity); reflexivity.
  - right. right. split; [exact Hk | now apply memoryCache_set_entry].
Qed.

Lemma memoryCache_get_entry key c st :
  key <> "__proto__" ->
  memoryCache st !! key = Some c ->
  memoryCache_get key st = Return (Plain c) st.
Proof.
  intros Hk Hc. apply String.eqb_neq in Hk.
  unfold memoryCache_get, gets, prop_of. now rewrite Hk, Hc.
Qed.

(** [setItemWithCache] after its first line. *)
Lemma setItemWithCache_stored key v now st0 :
  exists u,
    let written :=
      with_subscribers u
        (with_logs (fun g => g ++ [{| action := "setItemWithCache";
                                      details := key_value key v;
                                      timestamp := now |}])
           (with_localStorage (insert key (ToString (serialize v))) st0)) in
    (localStorage_setItem key (serialize v) ;;
     logAction "setItemWithCache" (key_value key v) now ;;
     triggerEvent "set" (key_value key v)) st0 = Return tt written
    \/ exists e,
        (localStorage_setItem key (serialize v) ;;
         logAction "setItemWithCache" (key_value key v) now ;;
         triggerEvent "set" (key_value key v)) st0 = Throw e written.
Proof.
  rewrite localStorage_setItem_serialize. unfold logAction. unfold_monad.
  match goal with
  | |- context [triggerEvent ?e ?p ?s] =>
      destruct (triggerEvent_outcome e p s) as [u [Hu|[e' Hu]]];
      exists u; rewrite Hu
  end; [left | right; exists e']; reflexivity.
Qed.

Lemma setItemWithCache_state key v now st st1 :
  state_of (setItemWithCache key v now st) = Some st1 ->
  (key <> "__proto__" -> memoryCache st1 = <[key := v]> (memoryCache st))
  /\ (key = "__proto__" -> memoryCache st1 = memoryCache st)
  /\ localStorage st1 = <[key := ToString (serialize v)]> (localStorage st).
Proof.
  unfold setItemWithCache. unfold bind at 1.
  destruct (memoryCache_set_cases key v st) as [Hm|[[Hk Hm]|[Hk Hm]]];
    rewrite Hm; [discriminate| |];
    match goal with
    | |- state_of (_ ?s0) = _ -> _ =>
        destruct (setItemWithCache_stored key v now s0) as [u [Hu|[e Hu]]]
    end; cbn zeta in Hu; rewrite Hu; intros [= <-];
    (split; [intros Hk'; try reflexivity; now destruct Hk'|]);
    (split; [intros Hk'; try reflexivity; now destruct Hk|]); reflexivity.
Qed.

Lemma removeItem_state key now st st1 :
  state_of (removeItem key now st) = Some st1 ->
  memoryCache st1 = memoryCache st
  /\ localStorage st1 = delete key (localStorage st).
Proof.
  unfold removeItem, localStorage_removeItem, logAction. unfold_monad.
  match goal with
  | |- state_of (triggerEvent ?e ?p ?s) = _ -> _ =>
      destruct (triggerEvent_outcome e p s) as [u [Hu|[e' Hu]]]; rewrite Hu
  end; intros [= <-]; split; reflexivity.
Qed.

Lemma clearStorage_state now st st1 :
  state_of (clearStorage now st) = Some st1 ->
  memoryCache st1 = memoryCache st /\ localStorage st1 = ∅.
Proof.
  unfold clearStorage, localStorage_clear, logAction. unfold_monad.
  match goal with
  | |- state_of (triggerEvent ?e ?p ?s) = _ -> _ =>
      destruct (triggerEvent_outcome e p s) as [u [Hu|[e' Hu]]]; rewrite Hu
  end; intros [= <-]; split; reflexivity.
Qed.

Lemma getItemWithCache_hit key now st c :
  key <> "__proto__" ->
  memoryCache st !! key = Some c -> truthy c = true ->
  getItemWithCache key now st
  = Return (Plain c)
      (with_logs (fun g => g ++ [{| action := "getItemWithCache";
                                    details := key_only key;
                                    timestamp := now |}]) st).
Proof.
  intros Hp Hk Hc. unfold getItemWithCache. unfold bind at 1.
  rewrite (memoryCache_get_entry key c st Hp Hk). cbn [read_truthy].
  rewrite Hc. reflexivity.
Qed.

(** With a falsy answer of the cache the read is [getItem]'s. *)
Lemma getItemWithCache_miss key now st c :
  memoryCache_get key st = Return (Plain c) st ->
  truthy c = false ->
  getItemWithCache key now st
  = (let* value := getItem key no_options now in
     logAction "getItemWithCache" (key_only key) now ;;
     ret (Plain value)) st.
Proof.
  intros Hk Hc. unfold getItemWithCache. unfold bind at 1. rewrite Hk.
  cbn [read_truthy]. rewrite Hc. unfold bind.
  now destruct (getItem key no_options now st).
Qed.

Lemma setItemWithCache_leaves key v now st :
  key <> "__proto__" ->
  exists st1, state_of (setItemWithCache key v now st) = Some st1.
Proof.
  intros Hk. unfold setItemWithCache. unfold bind at 1.
  rewrite (memoryCache_set_entry key v st Hk).
  match goal with
  | |- context [state_of (_ ?s0)] =>
      destruct (setItemWithCache_stored key v now s0) as [u [Hu|[e Hu]]]
  end; cbn zeta in Hu; rewrite Hu; eexists; reflexivity.
Qed.

Lemma removeItem_leaves key now st :
  exists st1, state_of (removeItem key now st) = Some st1.
Proof.
  unfold removeItem, localStorage_removeItem, logAction. unfold_monad.
  match goal with
  | |- context [triggerEvent ?e ?p ?s] =>
      destruct (triggerEvent_outcome e p s) as [u [Hu|[e' Hu]]]; rewrite Hu
  end; eexists; reflexivity.
Qed.

Lemma clearStorage_leaves now st :
  exists st1, state_of (clearStorage now st) = Some st1.
Proof.
  unfold clearStorage, localStorage_clear, logAction. unfold_monad.
  match goal with
  | |- context [triggerEvent ?e ?p ?s] =>
      destruct (triggerEvent_outcome e p s) as [u [Hu|[e' Hu]]]; rewrite Hu
  end; eexists; reflexivity.
Qed.

(** A falsy JSON value written through the cache reads as [null] from the
    store. *)
Lemma getItem_falsy_stored key c now st :
  truthy c = false -> c <> VUndefined ->
  localStorage st !! key = Some (ToString (serialize c)) ->
  getItem key no_options now st = Return VNull st.
Proof.
  intros Hc Hu Hk. unfold getItem. unfold bind at 1.
  unfold localStorage_getItem, gets. rewrite Hk.
  destruct c as [| |[|]|n|t|l|ps]; try discriminate; try congruence.
  - reflexivity.
  - reflexivity.
  - cbn [truthy] in Hc. apply negb_false_iff, Z.eqb_eq in Hc. subst n.
    reflexivity.
  - cbn [truthy] in Hc. apply negb_false_iff, String.eqb_eq in Hc. subst t.
    reflexivity.
Qed.

(** [C7] [removeItem] and [clearStorage] leave [memoryCache] as it was.
    So after [setItemWithCache(k, v1)] with a truthy [v1], under a key
    other than [__proto__], and a removal, [getItemWithCache(k)] still
    returns [v1]. *)
Theorem cache_survives_removal key v1 t1 t2 t3 st :
  key <> "__proto__" ->
  truthy v1 = true ->
  exists st1 st2 st2',
    state_of (setItemWithCache key v1 t1 st) = Some st1
    /\ state_of (removeItem key t2 st1) = Some st2
    /\ state_of (clearStorage t2 st1) = Some st2'
    /\ memoryCache st2 = memoryCache st1
    /\ memoryCache st2' = memoryCache st1
    /\ localStorage st2 !! key = None
    /\ result_of (getItemWithCache key t3 st2) = Some (Plain v1)
    /\ result_of (getItemWithCache key t3 st2') = Some (Plain v1).
Proof.
  intros Hp Hv.
  destruct (setItemWithCache_leaves key v1 t1 st Hp) as [st1 Hs1].
  destruct (removeItem_leaves key t2 st1) as [st2 Hs2].
  destruct (clearStorage_leaves t2 st1) as [st2' Hs2'].
  exists st1, st2, st2'.
  destruct (setItemWithCache_state _ _ _ _ _ Hs1) as [Hc1 _].
  specialize (Hc1 Hp).
  destruct (removeItem_state _ _ _ _ Hs2) as [Hc2 Hl2].
  destruct (clearStorage_state _ _ _ Hs2') as [Hc2' _].
  assert (Hk : memoryCache st2 !! key = Some v1)
    by (rewrite Hc2, Hc1; apply lookup_insert_eq).
  assert (Hk' : memoryCache st2' !! key = Some v1)
    by (rewrite Hc2', Hc1; apply lookup_insert_eq).
  repeat split; try assumption.
  - rewrite Hl2. apply lookup_delete_eq.
  - now rewrite (getItemWithCache_hit key t3 st2 v1 Hp Hk Hv).
  - now rewrite (getItemWithCache_hit key t3 st2' v1 Hp Hk' Hv).
Qed.


(** ** Lazy expiry and the [remove] event *)

(** The subscribers of an event of the module, run to the end or to the
    first that throws. *)
Lemma triggerEvent_completes cbs event data st u :
  listeners_of (eventListeners st) event = Some cbs ->
  completes cbs data (subscribers st) = Some u ->
  triggerEvent event data st = Return tt (with_subscribers u st).
Proof.
  intros Hl Hu. unfold triggerEvent. unfold bind, gets. rewrite Hl.
  now apply forEach_completes.
Qed.

Lemma triggerEvent_stops pre cb post event data st u e u' :
  listeners_of (eventListeners st) event = Some (pre ++ cb :: post) ->
  completes pre data (subscribers st) = Some u ->
  cb data u = Abrupt e u' ->
  triggerEvent event data st = Throw e (with_subscribers u' st).
Proof.
  intros Hl Hu Hcb. unfold triggerEvent. unfold bind, gets. rewrite Hl.
  now apply (forEach_stops pre cb post data st u e u').
Qed.


(** ** Synced writes *)

(** [setItem] with no options: the text of the item is stored, the write
    is logged, then the subscribers of [set] run. *)
Lemma setItem_no_options_event key v now st :
  exists t,
    JSON.stringify (VObj [("value", serialize v); ("expiry", VNull)]) = Some t
    /\ setItem key v no_options now st
       = triggerEvent "set" (key_value key v)
           (with_logs (fun g => g ++ [{| action := "set";
                                         details := key_value key v;
                                         timestamp := now |}])
              (with_localStorage (insert key t) st)).
Proof.
  destruct (stringify_item (serialize v) VNull) as (t & Ht & _).
  assert (Hser : serialize (VObj [("value", serialize v); ("expiry", VNull)])
                 = VStr t) by (unfold serialize at 1; now rewrite Ht).
  exists t. split; [exact Ht|].
  unfold setItem. cbn [no_options encrypt secret compress expiry truthy andb].
  unfold localStorage_setItem, js_String, logAction. unfold_monad.
  rewrite Hser. reflexivity.
Qed.

Lemma setItem_no_options key v now st :
  exists t u,
    JSON.stringify (VObj [("value", serialize v); ("expiry", VNull)]) = Some t
    /\ let written :=
         with_subscribers u
           (with_logs (fun g => g ++ [{| action := "set";
                                         details := key_value key v;
                                         timestamp := now |}])
              (with_localStorage (insert key t) st)) in
       (setItem key v no_options now st = Return tt written
        \/ exists e, setItem key v no_options now st = Throw e written).
Proof.
  destruct (setItem_no_options_event key v now st) as (t & Ht & Hs).
  exists t. rewrite Hs.
  match goal with
  | |- context [triggerEvent ?ev ?p ?s] =>
      destruct (triggerEvent_outcome ev p s) as [u [Hu|[e' Hu]]];
      exists u; rewrite Hu
  end; (split; [exact Ht|]); [left | right; exists e']; reflexivity.
Qed.

(** [C8] In the listing without the action log [setItemWithSync] hands
    the value to [localStorage.setItem]: when [String(value)] returns,
    that string is stored under the key as it is, no event is fired, and
    [{key, value}] is posted; when it throws, nothing is stored or posted.
    In the listing with the action log it calls [setItem(key, value)]: the
    key then holds the text of the item [{value: serialize(value), expiry:
    null}], the call is logged, the subscribers of [set] run in their
    order, and the message is posted when none of them throws; when one
    throws, the exception reaches the caller after the write and nothing
    is posted. *)
Theorem setItemWithSync_paths key v now st :
  (stringable v = true ->
   SimpleStorageDirect.setItemWithSync key v st
   = Return tt
       (with_channel (fun q => q ++ [key_value key v])
          (with_localStorage (insert key (ToString v)) st)))
  /\ (stringable v = false ->
      SimpleStorageDirect.setItemWithSync key v st = Throw TypeError st)
  /\ exists t,
      JSON.stringify (VObj [("value", serialize v); ("expiry", VNull)]) = Some t
      /\ let written u :=
           with_subscribers u
             (with_logs (fun g => g ++ [{| action := "set";
                                           details := key_value key v;
                                           timestamp := now |}])
                (with_localStorage (insert key t) st)) in
         (forall u,
             completes (set (eventListeners st)) (key_value key v)
               (subscribers st) = Some u ->
             setItemWithSync key v now st
             = Return tt
                 (with_channel (fun q => q ++ [key_value key v]) (written u)))
         /\ (forall pre cb post u e u',
               set (eventListeners st) = pre ++ cb :: post ->
               completes pre (key_value key v) (subscribers st) = Some u ->
               cb (key_value key v) u = Abrupt e u' ->
               setItemWithSync key v now st = Throw e (written u')).
Proof.
  split.
  { intros Hv. unfold SimpleStorageDirect.setItemWithSync.
    now rewrite (localStorage_setItem_stringable key v Hv). }
  split.
  { intros Hv. unfold SimpleStorageDirect.setItemWithSync.
    unfold localStorage_setItem, js_String. now rewrite Hv. }
  destruct (setItem_no_options_event key v now st) as (t & Ht & Hs).
  exists t. split; [exact Ht|]. cbn zeta. split.
  - intros u Hu. unfold setItemWithSync, bind. rewrite Hs.
    rewrite (triggerEvent_completes (set (eventListeners st)) "set" _ _ u);
      [reflexivity | reflexivity | exact Hu].
  - intros pre cb post u e u' Hl Hu Hcb.
    unfold setItemWithSync, bind. rewrite Hs.
    rewrite (triggerEvent_stops pre cb post "set" _ _ u e u');
      [reflexivity | | exact Hu | exact Hcb].
    cbn [listeners_of String.eqb Ascii.eqb Bool.eqb eventListeners
         with_logs with_localStorage].
    now rewrite Hl.
Qed.

End Properties.

(** * The two listings

    Apart from [setItemWithSync], a function of the second listing does
    what its namesake in the first does, the log left aside: what is shown
    above of the first holds of the second with the log entries dropped. *)

Section Listings.
Context {U : Type} {H : Host}.

Lemma unlogs_ret {A} (a : A) : unlogs (U:=U) (ret a) (ret a).
Proof. intros st. reflexivity. Qed.

Lemma unlogs_throw {A} e : unlogs (U:=U) (A:=A) (throw e) (throw e).
Proof. intros st. reflexivity. Qed.

Lemma unlogs_beyond {A} : unlogs (U:=U) (A:=A) beyond beyond.
Proof. intros st. reflexivity. Qed.

Lemma unlogs_bind {A B} (c c' : M U A) (k k' : A -> M U B) :
  unlogs c c' -> (forall a, unlogs (k a) (k' a)) ->
  unlogs (bind c k) (bind c' k').
Proof.
  intros Hc Hk st. unfold bind. rewrite <- Hc.
  destruct (c st) as [a st'|e st'|]; simpl; [apply Hk | reflexivity ..].
Qed.

Lemma unlogs_gets {A} (f : State U -> A) :
  (forall st, f (unlogged st) = f st) -> unlogs (gets f) (gets f).
Proof. intros Hf st. unfold gets. simpl. now rewrite Hf. Qed.

Lemma unlogs_modify (g : State U -> State U) :
  (forall st, unlogged (g st) = g (unlogged st)) ->
  unlogs (modify g) (modify g).
Proof. intros Hg st. unfold modify. simpl. now rewrite Hg. Qed.

(** A step that only logs is no step. *)
Lemma unlogs_logged {A} action details now (c c' : M U A) :
  unlogs c c' -> unlogs (logAction action details now ;; c) c'.
Proof. intros Hc st. unfold bind, logAction, modify. now rewrite Hc. Qed.

Lemma unlogs_then_log {A} action details now (c c' : M U A) :
  unlogs c c' ->
  unlogs (let* a := c in logAction action details now ;; ret a) c'.
Proof.
  intros Hc st. unfold bind, logAction, modify, ret. rewrite <- Hc.
  now destruct (c st).
Qed.

Lemma unlogs_forEach cbs data : unlogs (U:=U) (forEach cbs data) (forEach cbs data).
Proof.
  induction cbs as [|cb cbs IH]; intros st; [reflexivity|].
  simpl. destruct (cb data (subscribers st)) as [u|e u]; [|reflexivity].
  apply (IH (with_subscribers u st)).
Qed.

Lemma unlogs_triggerEvent event data :
  unlogs (U:=U) (triggerEvent event data) (triggerEvent event data).
Proof.
  apply unlogs_bind; [now apply unlogs_gets|].
  intros [cbs|]; [apply unlogs_forEach|].
  destruct (inherited event); [apply unlogs_throw | apply unlogs_ret].
Qed.

Lemma stateless_unlogs {A} (c : M U A) : stateless c -> unlogs c c.
Proof.
  intros Hc st. rewrite (Hc st (unlogged st)). pose proof (Hc st st) as Hs.
  destruct (c st); [injection Hs as -> | injection Hs as -> |]; reflexivity.
Qed.

Lemma stateless_js_String x : stateless (U:=U) (js_String x).
Proof. intros st st'. unfold js_String. now destruct (stringable x). Qed.

Lemma stateless_JSON_parse x : stateless (U:=U) (JSON_parse x).
Proof.
  intros st st'. unfold JSON_parse, js_String, bind.
  destruct (stringable x); [|reflexivity].
  unfold ret. now destruct (JSON.parse _).
Qed.

Lemma stateless_deserialize x : stateless (U:=U) (deserialize x).
Proof.
  intros st st'. unfold deserialize.
  destruct (truthy x); [apply stateless_JSON_parse | reflexivity].
Qed.

Lemma stateless_compressData x : stateless (U:=U) (compressData x).
Proof. intros st st'. unfold compressData. now destruct (serialize x). Qed.

Lemma stateless_decompressData x : stateless (U:=U) (decompressData x).
Proof.
  intros st st'. unfold decompressData.
  destruct x; try reflexivity; apply stateless_deserialize.
Qed.

Lemma stateless_decrypt x k : stateless (U:=U) (decrypt x k).
Proof.
  intros st st'. unfold decrypt.
  destruct x; try reflexivity. destruct k; try reflexivity.
  now destruct (AES_decrypt_Utf8 _ _).
Qed.

Lemma stateless_time_plus now e : stateless (U:=U) (time_plus now e).
Proof.
  intros st st'. destruct e; try reflexivity;
    unfold time_plus, js_String, bind;
    match goal with |- context [stringable ?x] => now destruct (stringable x) end.
Qed.

Lemma stateless_time_after now e : stateless (U:=U) (time_after now e).
Proof. intros st st'. now destruct e. Qed.

Lemma stateless_js_ge a limit : stateless (U:=U) (js_ge a limit).
Proof. intros st st'. now destruct a. Qed.

Lemma stateless_array_shift x : stateless (U:=U) (array_shift x).
Proof. intros st st'. now destruct x. Qed.

Lemma stateless_array_push x v : stateless (U:=U) (array_push x v).
Proof. intros st st'. now destruct x. Qed.

Lemma unlogs_localStorage_getItem key :
  unlogs (U:=U) (localStorage_getItem key) (localStorage_getItem key).
Proof. now apply unlogs_gets. Qed.

Lemma unlogs_localStorage_setItem key x :
  unlogs (U:=U) (localStorage_setItem key x) (localStorage_setItem key x).
Proof.
  apply unlogs_bind; [apply stateless_unlogs, stateless_js_String|].
  intros t. now apply unlogs_modify.
Qed.

Lemma unlogs_memoryCache_set key v :
  unlogs (U:=U) (memoryCache_set key v) (memoryCache_set key v).
Proof.
  unfold memoryCache_set. destruct (String.eqb key "__proto__").
  - destruct v; first [apply unlogs_beyond | apply unlogs_ret].
  - now apply unlogs_modify.
Qed.

Lemma unlogs_localStorage_removeItem key :
  unlogs (U:=U) (localStorage_removeItem key) (localStorage_removeItem key).
Proof. now apply unlogs_modify. Qed.

Theorem unlogs_setItem key v options now :
  unlogs (U:=U) (setItem key v options now)
    (SimpleStorageDirect.setItem key v options now).
Proof.
  unfold setItem, SimpleStorageDirect.setItem.
  apply unlogs_bind.
  { destruct (_ && _); [apply unlogs_throw | apply unlogs_ret]. }
  intros sv. apply unlogs_bind.
  { destruct (truthy (compress options));
      [apply stateless_unlogs, stateless_compressData | apply unlogs_ret]. }
  intros sv'. apply unlogs_bind.
  { destruct (truthy (expiry options));
      [apply stateless_unlogs, stateless_time_plus | apply unlogs_ret]. }
  intros d. apply unlogs_bind; [apply unlogs_localStorage_setItem|].
  intros _. apply unlogs_logged, unlogs_triggerEvent.
Qed.

Theorem unlogs_getItem key options now :
  unlogs (U:=U) (getItem key options now)
    (SimpleStorageDirect.getItem key options now).
Proof.
  unfold getItem, SimpleStorageDirect.getItem.
  apply unlogs_bind; [apply unlogs_localStorage_getItem|].
  intros raw. apply unlogs_bind; [apply stateless_unlogs, stateless_deserialize|].
  intros item. destruct (negb (truthy item)); [apply unlogs_ret|].
  apply unlogs_bind.
  { destruct (truthy (get_prop item "expiry"));
      [apply stateless_unlogs, stateless_time_after | apply unlogs_ret]. }
  intros [|].
  - apply unlogs_bind; [apply unlogs_localStorage_removeItem|].
    intros _. apply unlogs_logged, unlogs_ret.
  - apply unlogs_bind.
    { destruct (truthy (decompress options));
        [apply stateless_unlogs, stateless_decompressData | apply unlogs_ret]. }
    intros x. apply unlogs_bind.
    { destruct (_ && _);
        [apply stateless_unlogs, stateless_decrypt | apply unlogs_ret]. }
    intros y. apply stateless_unlogs, stateless_deserialize.
Qed.

Theorem unlogs_removeItem key now :
  unlogs (U:=U) (removeItem key now) (SimpleStorageDirect.removeItem key).
Proof.
  apply unlogs_bind; [apply unlogs_localStorage_removeItem|].
  intros _. apply unlogs_logged, unlogs_triggerEvent.
Qed.

Theorem unlogs_clearStorage now :
  unlogs (U:=U) (clearStorage now) SimpleStorageDirect.clearStorage.
Proof.
  apply unlogs_bind; [now apply unlogs_modify|].
  intros _. apply unlogs_logged, unlogs_triggerEvent.
Qed.

Theorem unlogs_setItemWithCache key v now :
  unlogs (U:=U) (setItemWithCache key v now)
    (SimpleStorageDirect.setItemWithCache key v).
Proof.
  apply unlogs_bind; [apply unlogs_memoryCache_set|].
  intros _. apply unlogs_bind; [apply unlogs_localStorage_setItem|].
  intros _. apply unlogs_logged, unlogs_triggerEvent.
Qed.

Theorem unlogs_getItemWithCache key now :
  unlogs (U:=U) (getItemWithCache key now)
    (SimpleStorageDirect.getItemWithCache key now).
Proof.
  unfold getItemWithCache, SimpleStorageDirect.getItemWithCache.
  apply unlogs_bind; [now apply unlogs_gets|].
  intros cached. apply unlogs_then_log.
  destruct (read_truthy cached); [apply unlogs_ret|].
  apply unlogs_bind; [apply unlogs_getItem | intros item; apply unlogs_ret].
Qed.

Theorem unlogs_setItemWithLimit key v limit now :
  unlogs (U:=U) (setItemWithLimit key v limit now)
    (SimpleStorageDirect.setItemWithLimit key v limit).
Proof.
  unfold setItemWithLimit, SimpleStorageDirect.setItemWithLimit.
  apply unlogs_bind; [apply unlogs_localStorage_getItem|].
  intros raw. apply unlogs_bind; [apply stateless_unlogs, stateless_JSON_parse|].
  intros parsed. apply unlogs_bind; [apply stateless_unlogs, stateless_js_ge|].
  intros full. apply unlogs_bind.
  { destruct full; [apply stateless_unlogs, stateless_array_shift | apply unlogs_ret]. }
  intros items. apply unlogs_bind; [apply stateless_unlogs, stateless_array_push|].
  intros items' st. rewrite !localStorage_setItem_serialize.
  unfold bind, logAction, modify. reflexivity.
Qed.

End Listings.

(** * More of the module

    Properties of the code beyond the specification's: the codec, the
    pipeline as a store, what a read and a write leave alone, and the
    functions of the rest of the first listing. *)

Section Pipeline.
Context {U : Type} {H : Host}.
Implicit Types (st : State U) (key : string) (v : value) (now : Z).

(** [X1] [deserialize(serialize(v))] is [v] for a JSON value [v]; the
    text [serialize] gives is never empty. *)
Theorem deserialize_serialize v st :
  json_value v = true ->
  exists t, serialize v = VStr t /\ t <> ""
            /\ deserialize (VStr t) st = Return v st.
Proof.
  intros Hwf. destruct (JSONFacts.stringify_json v Hwf) as [t Ht].
  exists t. unfold serialize. rewrite Ht. split; [reflexivity|]. split.
  - destruct (JSONFacts.stringify_head v t Ht) as [_ Hl].
    intros ->. simpl in Hl. lia.
  - now apply deserialize_stringify.
Qed.

(** [X2] [decompressData(compressData(v))] is [v] for a JSON value [v],
    whatever its type, when the library undoes its own compression:
    [compressData] serializes before it compresses and [decompressData]
    parses after it decompresses. *)
Theorem decompressData_compressData `{!HostLaws H} v st :
  json_value v = true ->
  exists c, compressData v st = Return c st
            /\ decompressData c st = Return v st.
Proof.
  intros Hwf. destruct (JSONFacts.stringify_json v Hwf) as [t Ht].
  exists (VStr (compressToUTF16 t)). unfold compressData, serialize.
  rewrite Ht. split; [reflexivity|].
  unfold decompressData. rewrite decompress_compress.
  now apply deserialize_stringify.
Qed.

(** [X3] Without the cipher, what [setItem] wrote under a key is what
    [getItem] reads from it, whatever was there before: with [decompress]
    set as [compress] was, with no [expiry] or a numeric one, read no later
    than the deadline. *)
Theorem setItem_getItem_roundtrip `{!HostLaws H}
    key v options options' now now' st :
  json_value v = true ->
  truthy (encrypt options) && truthy (secret options) = false ->
  truthy (encrypt options') && truthy (secret options') = false ->
  truthy (decompress options') = truthy (compress options) ->
  expiry options = VUndefined
  \/ (exists e, expiry options = VNum e /\ (e = 0 \/ now' <= now + e)) ->
  exists st1,
    state_of (setItem key v options now st) = Some st1
    /\ getItem key options' now' st1 = Return v st1.
Proof.
  intros Hwf Henc Henc' Hc Hex.
  destruct (JSONFacts.stringify_json v Hwf) as [tv Hv].
  assert (Hd : exists d,
             (forall st', (if truthy (expiry options)
                           then time_plus now (expiry options) else ret VNull) st'
                          = Return d st')
             /\ json_value d = true
             /\ (if truthy d then time_after (U:=U) now' d else ret false) st
                = Return false st).
  { destruct Hex as [-> | (e & -> & He)].
    - exists VNull. repeat split.
    - cbn [truthy]. destruct (Z.eqb_spec e 0) as [->|Hne]; cbn [negb].
      + exists VNull. repeat split.
      + exists (VNum (now + e)). repeat split. cbn [truthy].
        destruct (Z.eqb_spec (now + e) 0); cbn [negb time_after];
          [reflexivity|].
        unfold ret. f_equal. apply Z.ltb_ge. lia. }
  destruct Hd as (d & Hd & Hjd & Hfresh).
  destruct (setItem_outcome key v options now st tv d Hv Henc Hd)
    as (t & u & Ht & Hs).
  eexists. split; [exact Hs|].
  match type of Hs with _ = Some ?s => set (st1 := s) end.
  assert (Hk : localStorage st1 !! key = Some t) by apply lookup_insert_eq.
  rewrite (getItem_item key options' now' st1 t _ d Hk Ht eq_refl Hjd).
  unfold bind at 1.
  assert (Hfresh1 : (if truthy d then time_after (U:=U) now' d else ret false) st1
                    = Return false st1).
  { destruct (truthy d); [|reflexivity].
    rewrite (stateless_time_after now' d st st1), Hfresh. reflexivity. }
  rewrite Hfresh1.
  destruct (truthy (compress options)) eqn:Ec.
  - now apply decode_compressed.
  - now apply decode_plain.
Qed.

Lemma stateless_ret {A} (a : A) : stateless (U:=U) (ret a).
Proof. intros st st'. reflexivity. Qed.

Lemma stateless_same {A} (c : M U A) a st s :
  stateless c -> c st = Return a s -> s = st.
Proof. intros Hc E. pose proof (Hc st st) as Hs. rewrite E in Hs. now injection Hs. Qed.

Lemma stateless_bind {A B} (c : M U A) (k : A -> M U B) :
  stateless c -> (forall a, stateless (k a)) -> stateless (bind c k).
Proof.
  intros Hc Hk st st'. unfold bind. rewrite (Hc st st').
  destruct (c st) as [a s|e s|] eqn:E; try reflexivity.
  rewrite (stateless_same c a st s Hc E). apply Hk.
Qed.

Lemma reads_or_expires_bind {A} key now (c : M U A) (k : A -> M U value) st0 :
  stateless c -> (forall a, reads_or_expires key now (k a)) ->
  reads_or_expires key now (bind c k).
Proof.
  intros Hc Hk.
  destruct (c st0) as [a s|e s|] eqn:E.
  - destruct (Hk a) as [Hs|Hr].
    + left. intros st st'. unfold bind. rewrite (Hc st0 st), (Hc st0 st'), E.
      apply Hs.
    + right. intros st. unfold bind. rewrite (Hc st0 st), E. apply Hr.
  - left. intros st st'. unfold bind. now rewrite (Hc st0 st), (Hc st0 st'), E.
  - left. intros st st'. unfold bind. now rewrite (Hc st0 st), (Hc st0 st'), E.
Qed.

Lemma getItem_after_read_shape key options now raw st0 :
  reads_or_expires (U:=U) key now (getItem_after_read key options now raw).
Proof.
  unfold getItem_after_read.
  apply (reads_or_expires_bind key now _ _ st0); [apply stateless_deserialize|].
  intros item. destruct (negb (truthy item)); [left; apply stateless_ret|].
  apply (reads_or_expires_bind key now _ _ st0).
  { destruct (truthy _); [apply stateless_time_after | apply stateless_ret]. }
  intros [|]; [right; intros st; reflexivity|].
  left. apply stateless_bind.
  { destruct (truthy _); [apply stateless_decompressData | apply stateless_ret]. }
  intros x. apply stateless_bind.
  { destruct (_ && _); [apply stateless_decrypt | apply stateless_ret]. }
  intros y. apply stateless_deserialize.
Qed.

Lemma getItem_read key options now st :
  getItem key options now st
  = getItem_after_read key options now
      (match localStorage st !! key with
       | Some t => VStr t
       | None => VNull
       end) st.
Proof. reflexivity. Qed.

(** What [getItem] does after it has read the text under its key: for a
    given text either the same at every state, leaving the state alone, or
    the removal of the expired item. *)
Lemma getItem_shape key options now st :
  (forall st', localStorage st' !! key = localStorage st !! key ->
     getItem key options now st'
     = match getItem key options now st with
       | Return a _ => Return a st'
       | Throw e _ => Throw e st'
       | Beyond => Beyond
       end)
  \/ (forall st', localStorage st' !! key = localStorage st !! key ->
        getItem key options now st'
        = Return VNull
            (with_logs (fun g => g ++ [{| action := "remove";
                                          details := key_only key;
                                          timestamp := now |}])
               (with_localStorage (delete key) st'))).
Proof.
  destruct (getItem_after_read_shape key options now
              (match localStorage st !! key with
               | Some t => VStr t
               | None => VNull
               end) st) as [Hs|Hr].
  - left. intros st' Hk. rewrite !getItem_read, Hk. apply Hs.
  - right. intros st' Hk. rewrite getItem_read, Hk. apply Hr.
Qed.

(** [X4] [getItem] reads nothing but the text under its key: on two states
    that hold the same text there, it returns the same value or throws the
    same exception. *)
Theorem getItem_reads_own_key key options now st st' :
  localStorage st' !! key = localStorage st !! key ->
  result_of (getItem key options now st') = result_of (getItem key options now st)
  /\ thrown_of (getItem key options now st')
     = thrown_of (getItem key options now st).
Proof.
  intros Hk.
  destruct (getItem_shape key options now st) as [Hs|Hs].
  - rewrite (Hs st' Hk). now destruct (getItem key options now st).
  - rewrite (Hs st' Hk), (Hs st eq_refl). split; reflexivity.
Qed.

(** [X5] [getItem] changes the state in one case only: when it finds the
    item expired it removes its own key, logs the removal and returns
    [null].  Otherwise the state it leaves is the state it found, whether
    it returns or throws. *)
Theorem getItem_changes_only_expired key options now st st1 :
  state_of (getItem key options now st) = Some st1 ->
  st1 = st
  \/ (st1 = with_logs (fun g => g ++ [{| action := "remove";
                                         details := key_only key;
                                         timestamp := now |}])
              (with_localStorage (delete key) st)
      /\ getItem key options now st = Return VNull st1
      /\ is_Some (localStorage st !! key)).
Proof.
  intros Hst.
  destruct (getItem_shape key options now st) as [Hs|Hs].
  - left. pose proof (Hs st eq_refl) as Heq.
    destruct (getItem key options now st) as [a s|e s|];
      simpl in Hst; try discriminate; injection Hst as <-;
      now injection Heq.
  - right. pose proof (Hs st eq_refl) as Heq. rewrite Heq in Hst.
    injection Hst as <-. repeat split; [exact Heq|].
    destruct (localStorage st !! key) eqn:Ek; [eauto|].
    rewrite (getItem_absent key options now st Ek) in Heq.
    injection Heq as Heq. exfalso.
    apply (f_equal logs) in Heq. simpl in Heq.
    apply (f_equal (@length _)) in Heq. rewrite length_app in Heq.
    simpl in Heq. lia.
Qed.

(** ** What a write leaves alone *)

Lemma bind_stateless {A B} (c : M U A) (k : A -> M U B) st :
  stateless c ->
  (exists a, bind c k st = k a st)
  \/ (exists e, bind c k st = Throw e st)
  \/ bind c k st = Beyond.
Proof.
  intros Hc. unfold bind. destruct (c st) as [a s|e s|] eqn:E.
  - left. exists a. now rewrite (stateless_same c a st s Hc E).
  - right. left. exists e. pose proof (Hc st st) as Hs. rewrite E in Hs.
    now injection Hs as ->.
  - right. now right.
Qed.

Lemma stateless_call_value f args : stateless (U:=U) (call_value f args).
Proof. intros st st'. reflexivity. Qed.

Lemma setItem_frame key v options now st st1 :
  state_of (setItem key v options now st) = Some st1 ->
  memoryCache st1 = memoryCache st
  /\ eventListeners st1 = eventListeners st
  /\ channel st1 = channel st
  /\ forall key', key' <> key ->
       localStorage st1 !! key' = localStorage st !! key'.
Proof.
  unfold setItem.
  match goal with
  | |- state_of (bind ?c ?k st) = _ -> _ =>
      destruct (bind_stateless c k st) as [[a ->]|[[e ->]| ->]]
  end.
  { destruct (_ && _); [apply stateless_call_value | apply stateless_ret]. }
  2:{ intros [= <-]. repeat split. }
  2:{ discriminate. }
  match goal with
  | |- state_of (bind ?c ?k st) = _ -> _ =>
      destruct (bind_stateless c k st) as [[b ->]|[[e ->]| ->]]
  end.
  { destruct (truthy _); [apply stateless_compressData | apply stateless_ret]. }
  2:{ intros [= <-]. repeat split. }
  2:{ discriminate. }
  match goal with
  | |- state_of (bind ?c ?k st) = _ -> _ =>
      destruct (bind_stateless c k st) as [[d ->]|[[e ->]| ->]]
  end.
  { destruct (truthy _); [apply stateless_time_plus | apply stateless_ret]. }
  2:{ intros [= <-]. repeat split. }
  2:{ discriminate. }
  rewrite localStorage_setItem_serialize. unfold logAction. unfold_monad.
  match goal with
  | |- state_of (triggerEvent ?ev ?p ?s) = _ -> _ =>
      destruct (triggerEvent_outcome ev p s) as [u [Hu|[e' Hu]]]; rewrite Hu
  end; intros [= <-];
    (repeat split; intros key' Hne; cbn; now rewrite lookup_insert_ne).
Qed.

Lemma setItemWithLimit_frame key v limit now st st1 :
  state_of (setItemWithLimit key v limit now st) = Some st1 ->
  memoryCache st1 = memoryCache st
  /\ eventListeners st1 = eventListeners st
  /\ channel st1 = channel st
  /\ subscribers st1 = subscribers st
  /\ forall key', key' <> key ->
       localStorage st1 !! key' = localStorage st !! key'.
Proof.
  unfold setItemWithLimit. unfold bind at 1. unfold localStorage_getItem, gets.
  match goal with
  | |- state_of (bind ?c ?k st) = _ -> _ =>
      destruct (bind_stateless c k st) as [[a ->]|[[e ->]| ->]]
  end.
  { apply stateless_JSON_parse. }
  2:{ intros [= <-]. repeat split. }
  2:{ discriminate. }
  match goal with
  | |- state_of (bind ?c ?k st) = _ -> _ =>
      destruct (bind_stateless c k st) as [[b ->]|[[e ->]| ->]]
  end.
  { apply stateless_js_ge. }
  2:{ intros [= <-]. repeat split. }
  2:{ discriminate. }
  match goal with
  | |- state_of (bind ?c ?k st) = _ -> _ =>
      destruct (bind_stateless c k st) as [[d ->]|[[e ->]| ->]]
  end.
  { destruct b; [apply stateless_array_shift | apply stateless_ret]. }
  2:{ intros [= <-]. repeat split. }
  2:{ discriminate. }
  match goal with
  | |- state_of (bind ?c ?k st) = _ -> _ =>
      destruct (bind_stateless c k st) as [[d' ->]|[[e ->]| ->]]
  end.
  { apply stateless_array_push. }
  2:{ intros [= <-]. repeat split. }
  2:{ discriminate. }
  rewrite localStorage_setItem_serialize. unfold logAction. unfold_monad.
  intros [= <-].
  repeat split; intros key' Hne; cbn; now rewrite lookup_insert_ne.
Qed.

Lemma setItemWithSync_frame key v now st st1 :
  state_of (setItemWithSync key v now st) = Some st1 ->
  memoryCache st1 = memoryCache st
  /\ eventListeners st1 = eventListeners st
  /\ forall key', key' <> key ->
       localStorage st1 !! key' = localStorage st !! key'.
Proof.
  intros Hst. unfold setItemWithSync in Hst. unfold bind at 1 in Hst.
  destruct (setItem key v no_options now st) as [[] s|e s|] eqn:E;
    try discriminate.
  - unfold postMessage, modify in Hst. injection Hst as <-.
    destruct (setItem_frame key v no_options now st s) as (Hm & Hl & _ & Hk);
      [now rewrite E|].
    repeat split; assumption.
  - injection Hst as <-.
    destruct (setItem_frame key v no_options now st s) as (Hm & Hl & _ & Hk);
      [now rewrite E|].
    repeat split; assumption.
Qed.

(** [X6] A write under one key leaves every other key as it was, whether
    the write returns or throws: [getItem] on another key reads the same
    text and gives the same value or the same exception as before the
    write.  This holds of [setItem], [removeItem], [setItemWithCache],
    [setItemWithLimit] and [setItemWithSync]. *)
Theorem writes_keep_other_keys key key' options' now' st st1 :
  key' <> key ->
  (exists v options now, state_of (setItem key v options now st) = Some st1)
  \/ (exists now, state_of (removeItem key now st) = Some st1)
  \/ (exists v now, state_of (setItemWithCache key v now st) = Some st1)
  \/ (exists v limit now,
        state_of (setItemWithLimit key v limit now st) = Some st1)
  \/ (exists v now, state_of (setItemWithSync key v now st) = Some st1) ->
  localStorage st1 !! key' = localStorage st !! key'
  /\ result_of (getItem key' options' now' st1)
     = result_of (getItem key' options' now' st)
  /\ thrown_of (getItem key' options' now' st1)
     = thrown_of (getItem key' options' now' st).
Proof.
  intros Hne Hw.
  assert (Hk : localStorage st1 !! key' = localStorage st !! key').
  { destruct Hw as [(v & o & now & Hs)|[(now & Hs)|[(v & now & Hs)
                   |[(v & limit & now & Hs)|(v & now & Hs)]]]].
    - now apply (setItem_frame key v o now st st1 Hs).
    - destruct (removeItem_state _ _ _ _ Hs) as [_ ->].
      now apply lookup_delete_ne.
    - destruct (setItemWithCache_state _ _ _ _ _ Hs) as (_ & _ & ->).
      now apply lookup_insert_ne.
    - now apply (setItemWithLimit_frame key v limit now st st1 Hs).
    - now apply (setItemWithSync_frame key v now st st1 Hs). }
  split; [exact Hk|].
  destruct (getItem_shape key' options' now' st) as [Hs|Hs].
  - rewrite (Hs st1 Hk). now destruct (getItem key' options' now' st).
  - rewrite (Hs st1 Hk), (Hs st eq_refl). split; reflexivity.
Qed.

(** [X7] After [removeItem(key)] a read of the key gives [null], and after
    [clearStorage()] a read of any key does, also when a subscriber of the
    event threw: the removal comes before the event. *)
Theorem removed_reads_null key key' options now now' st :
  exists st1 st2,
    state_of (removeItem key now st) = Some st1
    /\ state_of (clearStorage now st) = Some st2
    /\ getItem key options now' st1 = Return VNull st1
    /\ getItem key' options now' st2 = Return VNull st2.
Proof.
  destruct (removeItem_leaves key now st) as [st1 Hs1].
  destruct (clearStorage_leaves now st) as [st2 Hs2].
  exists st1, st2. split; [exact Hs1|]. split; [exact Hs2|].
  destruct (removeItem_state _ _ _ _ Hs1) as [_ Hl1].
  destruct (clearStorage_state _ _ _ Hs2) as [_ Hl2].
  split; apply getItem_absent.
  - rewrite Hl1. apply lookup_delete_eq.
  - rewrite Hl2. apply lookup_empty.
Qed.

(** [X8] A subscriber of [set] that throws makes [setItem] throw, after the
    write: the exception reaches the caller, the subscribers registered
    after it are not run, and the item is stored all the same, so a read
    gives the value. *)
Theorem setItem_throwing_subscriber key v now now' st pre cb post u e u' :
  json_value v = true ->
  set (eventListeners st) = pre ++ cb :: post ->
  completes pre (key_value key v) (subscribers st) = Some u ->
  cb (key_value key v) u = Abrupt e u' ->
  exists st1,
    setItem key v no_options now st = Throw e st1
    /\ subscribers st1 = u'
    /\ getItem key no_options now' st1 = Return v st1.
Proof.
  intros Hwf Hl Hpre Hcb.
  destruct (JSONFacts.stringify_json v Hwf) as [tv Hv].
  destruct (stringify_item (VStr tv) VNull) as (t & Ht & _).
  assert (Hser : serialize (VObj [("value", serialize v); ("expiry", VNull)])
                 = VStr t).
  { unfold serialize. rewrite Hv. unfold serialize. now rewrite Ht. }
  eexists. split; [|split].
  - unfold setItem.
    cbn [no_options encrypt secret compress expiry truthy andb].
    unfold localStorage_setItem, js_String, logAction, triggerEvent,
      listeners_of.
    unfold_monad. rewrite Hser.
    cbn [stringable ToString String.eqb Ascii.eqb Bool.eqb].
    cbn [eventListeners with_logs with_localStorage]. rewrite Hl.
    apply (forEach_stops pre cb post _ _ u e u'); [exact Hpre | exact Hcb].
  - reflexivity.
  - match goal with |- getItem _ _ _ ?s = _ => set (st1 := s) end.
    assert (Hk : localStorage st1 !! key = Some t) by apply lookup_insert_eq.
    assert (Ht' : JSON.stringify (VObj [("value", VStr tv); ("expiry", VNull)])
                  = Some t) by exact Ht.
    rewrite (getItem_item key no_options now' st1 t (VStr tv) VNull Hk Ht'
               eq_refl eq_refl).
    cbn [truthy]. unfold bind at 1. unfold ret at 1.
    now apply decode_plain.
Qed.

(** ** Texts that are not items *)

(** A stored JSON text with no [expiry] and no [value] of its own reads as
    [null]. *)
Lemma getItem_not_item key now st t x :
  localStorage st !! key = Some t ->
  JSON.stringify x = Some t ->
  json_value x = true ->
  get_prop x "expiry" = VUndefined ->
  get_prop x "value" = VUndefined ->
  getItem key no_options now st = Return VNull st.
Proof.
  intros Hk Ht Hwf He Hv. rewrite getItem_read, Hk.
  unfold getItem_after_read. unfold bind at 1.
  rewrite (deserialize_stringify x t st Hwf Ht).
  destruct (truthy x); cbn [negb]; [|reflexivity].
  rewrite He, Hv. reflexivity.
Qed.

Lemma inherited_proto key : inherited key = false -> key <> "__proto__".
Proof. intros Hk ->. discriminate Hk. Qed.

(** [X9] What [setItemWithCache] and [setItemWithLimit] store is not an
    item [{value, expiry}], and [getItem] reads it as [null]: a JSON value
    with no [value] and no [expiry] of its own, cached and stored by
    [setItemWithCache] under a key that is not a name every object
    inherits, is [null] to [getItem], and to [getItemWithCache] once the
    cache is empty again; so is the array [setItemWithLimit] stores. *)
Theorem plain_writes_read_null key v limit now now' st :
  json_value v = true ->
  get_prop v "expiry" = VUndefined ->
  get_prop v "value" = VUndefined ->
  (inherited key = false ->
   exists st1,
     state_of (setItemWithCache key v now st) = Some st1
     /\ getItem key no_options now' st1 = Return VNull st1
     /\ result_of (getItemWithCache key now'
                     (with_memoryCache (fun _ => ∅) st1)) = Some (Plain VNull))
  /\ (localStorage st !! key = None ->
      exists st2,
        setItemWithLimit key v limit now st = Return tt st2
        /\ getItem key no_options now' st2 = Return VNull st2).
Proof.
  intros Hwf He Hv. split.
  - intros Hin. pose proof (inherited_proto key Hin) as Hp.
    destruct (setItemWithCache_leaves key v now st Hp) as [st1 Hst].
    exists st1. split; [exact Hst|].
    destruct (setItemWithCache_state _ _ _ _ _ Hst) as (_ & _ & Hls).
    destruct (JSONFacts.stringify_json v Hwf) as [t Ht].
    assert (Hk : localStorage st1 !! key = Some t).
    { rewrite Hls, lookup_insert_eq. unfold serialize. now rewrite Ht. }
    split; [now apply (getItem_not_item key now' st1 t v)|].
    apply String.eqb_neq in Hp.
    unfold getItemWithCache, memoryCache_get, prop_of, logAction.
    unfold_monad. cbn [memoryCache with_memoryCache].
    rewrite Hp, lookup_empty, Hin. cbn [read_truthy truthy].
    rewrite (getItem_not_item key now' _ t v); [reflexivity | exact Hk | | | |];
      assumption.
  - intros Hk.
    destruct (setItemWithLimit_step key v limit now st [])
      as (t & Ht & Hs); [now rewrite Hk|].
    eexists. split; [exact Hs|].
    apply (getItem_not_item key now' _ t
             (VArr ((if (limit <=? Z.of_nat (length (@nil value)))%Z
                     then tl [] else []) ++ [v]))).
    + apply lookup_insert_eq.
    + exact Ht.
    + destruct (limit <=? _)%Z; simpl; now rewrite Hwf.
    + reflexivity.
    + reflexivity.
Qed.

(** [X10] In the second listing a synced object is lost: [setItemWithSync]
    hands the object to [localStorage.setItem], which stores its string
    form.  For an object with no [toString] of its own that is the text
    [[object Object]], whatever the object holds, and [getItem] on the key
    then throws [SyntaxError], with any options and in both listings.  For
    an object with a [toString] of its own the conversion throws
    [TypeError], and nothing is stored or posted. *)
Theorem synced_object_unreadable key ps options now st :
  (assoc "toString" ps = None ->
   exists st1,
     SimpleStorageDirect.setItemWithSync key (VObj ps) st = Return tt st1
     /\ localStorage st1 !! key = Some "[object Object]"
     /\ channel st1 = channel st ++ [key_value key (VObj ps)]
     /\ getItem key options now st1 = Throw SyntaxError st1
     /\ SimpleStorageDirect.getItem key options now st1
        = Throw SyntaxError st1)
  /\ (assoc "toString" ps <> None ->
      SimpleStorageDirect.setItemWithSync key (VObj ps) st
      = Throw TypeError st).
Proof.
  split.
  - intros Hts.
    assert (Hs : stringable (VObj ps) = true) by (cbn; now rewrite Hts).
    unfold SimpleStorageDirect.setItemWithSync.
    rewrite (localStorage_setItem_stringable key (VObj ps) Hs).
    eexists. split; [reflexivity|].
    match goal with |- localStorage ?s !! _ = _ /\ _ => set (st1 := s) end.
    assert (Hk : localStorage st1 !! key = Some "[object Object]")
      by apply lookup_insert_eq.
    split; [exact Hk|]. split; [reflexivity|].
    split; [unfold getItem | unfold SimpleStorageDirect.getItem];
      unfold bind at 1; unfold localStorage_getItem, gets; rewrite Hk;
      reflexivity.
  - intros Hts.
    unfold SimpleStorageDirect.setItemWithSync, localStorage_setItem,
      js_String.
    cbn [stringable]. destruct (assoc "toString" ps); [reflexivity|].
    now destruct Hts.
Qed.

(** ** The cache *)

Lemma getItem_frame key options now st st1 :
  state_of (getItem key options now st) = Some st1 ->
  memoryCache st1 = memoryCache st
  /\ eventListeners st1 = eventListeners st
  /\ channel st1 = channel st
  /\ subscribers st1 = subscribers st.
Proof.
  intros Hst. destruct (getItem_shape key options now st) as [Hs|Hs];
    pose proof (Hs st eq_refl) as Heq.
  - destruct (getItem key options now st) as [a s|e s|];
      simpl in Hst; try discriminate; injection Hst as <-;
      injection Heq as ->; repeat split.
  - rewrite Heq in Hst. injection Hst as <-. repeat split.
Qed.

(** [X11] Only [setItemWithCache] writes the cache.  [setItem], [getItem],
    [removeItem], [clearStorage], [setItemWithLimit], [setItemWithSync] and
    [getItemWithCache] leave it as it is, so a read that misses the cache
    does not fill it, and a later write through [setItem] does not update
    a cached value. *)
Theorem cache_written_only_by_setItemWithCache key st st1 :
  (exists v options now, state_of (setItem key v options now st) = Some st1)
  \/ (exists options now, state_of (getItem key options now st) = Some st1)
  \/ (exists now, state_of (removeItem key now st) = Some st1)
  \/ (exists now, state_of (clearStorage now st) = Some st1)
  \/ (exists v limit now,
        state_of (setItemWithLimit key v limit now st) = Some st1)
  \/ (exists v now, state_of (setItemWithSync key v now st) = Some st1)
  \/ (exists now, state_of (getItemWithCache key now st) = Some st1) ->
  memoryCache st1 = memoryCache st.
Proof.
  intros [(v & o & now & Hs)|[(o & now & Hs)|[(now & Hs)|[(now & Hs)
         |[(v & limit & now & Hs)|[(v & now & Hs)|(now & Hs)]]]]]].
  - apply (setItem_frame key v o now st st1 Hs).
  - apply (getItem_frame key o now st st1 Hs).
  - apply (removeItem_state _ _ _ _ Hs).
  - apply (clearStorage_state _ _ _ Hs).
  - apply (setItemWithLimit_frame key v limit now st st1 Hs).
  - apply (setItemWithSync_frame key v now st st1 Hs).
  - unfold getItemWithCache in Hs. unfold bind at 1 in Hs.
    unfold memoryCache_get, gets in Hs.
    destruct (read_truthy _).
    + unfold logAction in Hs. unfold_monad. now injection Hs as <-.
    + unfold bind, logAction, modify, ret in Hs.
      destruct (getItem key no_options now st) as [a s|e s|] eqn:E;
        try discriminate; injection Hs as <-;
        apply (getItem_frame key no_options now st s); now rewrite E.
Qed.

End Pipeline.

(** * The rest of the module *)

(** ** The sort of [cleanStorageByPriority] *)

Section Sorting.
Variable len : string -> nat.

Lemma insert_by_Permutation k l : insert_by len k l ≡ₚ k :: l.
Proof.
  induction l as [|x l IH]; simpl; [reflexivity|].
  destruct (len k <=? len x)%nat; [reflexivity|].
  rewrite IH. apply Permutation_swap.
Qed.

Lemma sort_by_Permutation l : sort_by len l ≡ₚ l.
Proof.
  induction l as [|x l IH]; simpl; [reflexivity|].
  now rewrite insert_by_Permutation, IH.
Qed.

Lemma insert_by_sorted k l :
  StronglySorted (fun a b => (len a <= len b)%nat) l ->
  StronglySorted (fun a b => (len a <= len b)%nat) (insert_by len k l).
Proof.
  induction l as [|x l IH]; simpl; intros Hs.
  - repeat constructor.
  - apply StronglySorted_cons in Hs as [Hx Hl].
    destruct (len k <=? len x)%nat eqn:E.
    + apply Nat.leb_le in E. apply StronglySorted_cons. split.
      * constructor; [exact E|].
        eapply Forall_impl; [exact Hx|]. simpl. intros; lia.
      * apply StronglySorted_cons. now split.
    + apply Nat.leb_gt in E. apply StronglySorted_cons. split.
      * rewrite insert_by_Permutation. constructor; [lia | exact Hx].
      * now apply IH.
Qed.

Lemma sort_by_sorted l :
  StronglySorted (fun a b => (len a <= len b)%nat) (sort_by len l).
Proof.
  induction l as [|x l IH]; simpl; [constructor|].
  now apply insert_by_sorted.
Qed.

Lemma filter_sorted (P : string -> Prop) `{!forall x, Decision (P x)} l :
  StronglySorted (fun a b => (len a <= len b)%nat) l ->
  StronglySorted (fun a b => (len a <= len b)%nat) (filter P l).
Proof.
  induction l as [|x l IH]; intros Hs; [constructor|].
  apply StronglySorted_cons in Hs as [Hx Hl].
  rewrite filter_cons. destruct (decide (P x)); [|now apply IH].
  apply StronglySorted_cons. split; [|now apply IH].
  apply Forall_forall. intros y Hy. apply list_elem_of_filter in Hy as [_ Hy].
  rewrite Forall_forall in Hx. now apply Hx.
Qed.

End Sorting.

Section Rest.
Context {U : Type} {H : Host} {C : Cipher} {K : KeyOrder}.

Import SimpleStorageRest SimpleStoragePage.

(** ** [setItemEncrypted] and [getItemDecrypted] *)

(** [X12] With a cipher that decrypts what it encrypted, and gives a text
    that is not empty for one that is not, [getItemDecrypted] with the
    secret returns the JSON value [setItemEncrypted] stored with it,
    whether the subscribers of [set] completed or one of them threw. *)
Theorem getItemDecrypted_setItemEncrypted `{!CipherLaws H C}
    key v k salt now now' (st : State U) :
  json_value v = true ->
  exists st1,
    state_of (setItemEncrypted key v (VStr k) salt now st) = Some st1
    /\ result_of (getItemDecrypted key (VStr k) now' st1) = Some v.
Proof.
  intros Hwf. destruct (JSONFacts.stringify_json v Hwf) as [t Ht].
  assert (Hne : t <> "").
  { destruct (JSONFacts.stringify_head v t Ht) as [_ Hl].
    intros ->. simpl in Hl. lia. }
  assert (Hread : forall st1 : State U,
            localStorage st1 !! key = Some (AES_encrypt salt t k) ->
            result_of (getItemDecrypted key (VStr k) now' st1) = Some v).
  { intros st1 Hk. unfold getItemDecrypted. unfold bind at 1.
    unfold localStorage_getItem, gets. rewrite Hk. cbn [truthy].
    pose proof (encrypt_nonempty salt t k Hne) as Hc.
    apply String.eqb_neq in Hc. rewrite Hc. cbn [negb].
    unfold bind at 1. unfold decrypt. rewrite decrypt_encrypt.
    unfold ret at 1. unfold bind at 1. unfold logAction, modify.
    now rewrite (deserialize_stringify v t _ Hwf Ht). }
  unfold setItemEncrypted, encrypt, serialize. rewrite Ht.
  unfold bind at 1. unfold ret at 1.
  rewrite (localStorage_setItem_stringable key (VStr (AES_encrypt salt t k))
             eq_refl).
  unfold bind, logAction, modify. cbn [ToString].
  match goal with
  | |- context [triggerEvent ?ev ?p ?s] =>
      destruct (triggerEvent_outcome ev p s) as [u [Hu|[e' Hu]]]; rewrite Hu
  end; (eexists; split; [reflexivity|]); apply Hread; apply lookup_insert_eq.
Qed.

(** ** The listeners of the channel *)

(** [X13] The listener of the first listing writes a received [{key,
    value}] through [setItem]: for a key that is not empty and a truthy
    value the receiving tab gets the text the sender's [setItemWithSync]
    stored.  It does not answer on the channel.  A falsy value ([0],
    [false], the empty string, [null]) or an empty key is ignored: the
    sender has stored it and the receiver has not. *)
Theorem onmessage_applies_sync key v now now' (sa sb : State U) :
  exists sb1,
    state_of (onmessage (key_value key v) now' sb) = Some sb1
    /\ channel sb1 = channel sb
    /\ (key <> "" -> truthy v = true ->
        forall sa1, state_of (setItemWithSync key v now sa) = Some sa1 ->
                    is_Some (localStorage sa1 !! key)
                    /\ localStorage sb1 !! key = localStorage sa1 !! key)
    /\ (key = "" \/ truthy v = false -> sb1 = sb).
Proof.
  unfold onmessage.
  change (get_prop (key_value key v) "key") with (VStr key).
  change (get_prop (key_value key v) "value") with v.
  cbn [key_value truthy].
  destruct (String.eqb_spec key "") as [->|Hne]; cbn [negb andb].
  { exists sb. split; [reflexivity|]. split; [reflexivity|].
    split; [congruence | reflexivity]. }
  destruct (truthy v) eqn:Ev.
  2:{ exists sb. split; [reflexivity|]. split; [reflexivity|].
      split; [congruence | reflexivity]. }
  destruct (setItem_no_options key v now' sb) as (t & u & Ht & Hsb).
  eexists. split; [destruct Hsb as [->|[e ->]]; reflexivity|].
  split; [reflexivity|]. split.
  - intros _ _ sa1 Hsa.
    destruct (setItem_no_options key v now sa) as (t' & u' & Ht' & Hw).
    assert (t' = t) by congruence. subst t'.
    assert (Hk : localStorage sa1 !! key = Some t).
    { unfold setItemWithSync in Hsa. unfold bind, postMessage, modify in Hsa.
      destruct Hw as [Hw|[e Hw]]; rewrite Hw in Hsa; injection Hsa as <-;
        apply lookup_insert_eq. }
    rewrite Hk. split; [eauto|]. apply lookup_insert_eq.
  - intros [?|?]; congruence.
Qed.

(** [X14] The second listing syncs the raw string.  For a value whose
    conversion to a string returns, [setItemWithSync] stores that string
    under the key and posts [{key, value}] without running a subscriber;
    the listener of the other tab stores the same string under the key,
    does not answer on the channel, and runs the subscribers of [set]
    there.  For a value whose conversion throws, both throw [TypeError]
    and change nothing. *)
Theorem direct_onmessage_applies_sync key v (sa sb : State U) :
  (stringable v = true ->
   exists sa1 sb1,
     SimpleStorageDirect.setItemWithSync key v sa = Return tt sa1
     /\ localStorage sa1 !! key = Some (ToString v)
     /\ channel sa1 = channel sa ++ [key_value key v]
     /\ subscribers sa1 = subscribers sa
     /\ state_of (SimpleStorageDirectRest.onmessage (key_value key v) sb)
        = Some sb1
     /\ localStorage sb1 !! key = Some (ToString v)
     /\ channel sb1 = channel sb
     /\ (forall u,
            completes (set (eventListeners sb)) (key_value key v)
              (subscribers sb) = Some u ->
            subscribers sb1 = u))
  /\ (stringable v = false ->
      SimpleStorageDirect.setItemWithSync key v sa = Throw TypeError sa
      /\ SimpleStorageDirectRest.onmessage (key_value key v) sb
         = Throw TypeError sb).
Proof.
  set (payload := key_value key v).
  assert (Hon : SimpleStorageDirectRest.onmessage payload sb
                = (localStorage_setItem key v ;;
                   triggerEvent "set" payload) sb) by reflexivity.
  split.
  - intros Hv.
    exists (with_channel (fun q => q ++ [payload])
              (with_localStorage (insert key (ToString v)) sa)).
    set (sb0 := with_localStorage (insert key (ToString v)) sb).
    assert (Hstep : SimpleStorageDirectRest.onmessage payload sb
                    = triggerEvent "set" payload sb0).
    { rewrite Hon. now rewrite (localStorage_setItem_stringable key v Hv). }
    destruct (triggerEvent_outcome "set" payload sb0) as [u Hout].
    exists (with_subscribers u sb0).
    split.
    { unfold SimpleStorageDirect.setItemWithSync.
      now rewrite (localStorage_setItem_stringable key v Hv). }
    split; [apply lookup_insert_eq|]. split; [reflexivity|].
    split; [reflexivity|].
    split; [rewrite Hstep; destruct Hout as [->|[e ->]]; reflexivity|].
    split; [apply lookup_insert_eq|]. split; [reflexivity|].
    intros u' Hu'.
    assert (Hrun : triggerEvent "set" payload sb0
                   = Return tt (with_subscribers u' sb0))
      by now apply (triggerEvent_completes (set (eventListeners sb))).
    destruct Hout as [Hout|[e Hout]]; rewrite Hout in Hrun;
      [injection Hrun as Hr | discriminate].
    exact Hr.
  - intros Hv. split.
    + unfold SimpleStorageDirect.setItemWithSync, localStorage_setItem,
        js_String. now rewrite Hv.
    + rewrite Hon. unfold localStorage_setItem, js_String. now rewrite Hv.
Qed.

(** ** [cleanStorageByPriority] *)

Lemma clean_each_run items p now (st : State U) :
  exists st1,
    clean_each items p now st = Return tt st1
    /\ logs st1 = logs st ++ map (cleaned now) (filter (fun k => k <> p) items)
    /\ (forall k, k ∈ items -> k <> p -> localStorage st1 !! k = None)
    /\ (forall k, k ∉ items \/ k = p ->
                  localStorage st1 !! k = localStorage st !! k)
    /\ memoryCache st1 = memoryCache st
    /\ eventListeners st1 = eventListeners st
    /\ channel st1 = channel st
    /\ subscribers st1 = subscribers st.
Proof.
  revert st. induction items as [|key rest IH]; intros st.
  - exists st. simpl. rewrite app_nil_r. repeat split.
    intros k Hk. now apply elem_of_nil in Hk.
  - cbn [clean_each]. rewrite filter_cons.
    destruct (String.eqb_spec key p) as [->|Hne].
    + destruct (IH st) as (st1 & Hrun & Hlog & Hrem & Hkeep & Hfr).
      exists st1. split; [unfold bind, ret; exact Hrun|].
      destruct (decide (p <> p)) as [Hpp|_]; [now destruct Hpp|].
      split; [exact Hlog|]. split; [|split; [|exact Hfr]].
      * intros k Hk Hkp. apply elem_of_cons in Hk as [->|Hk]; [easy|].
        now apply Hrem.
      * intros k [Hk| ->]; apply Hkeep; [left | now right].
        intros Hin. apply Hk. now right.
    + set (st' := with_logs (fun g => g ++ [cleaned now key])
                    (with_localStorage (delete key) st)).
      destruct (IH st') as (st1 & Hrun & Hlog & Hrem & Hkeep & Hfr).
      exists st1. split; [exact Hrun|].
      destruct (decide (key <> p)) as [_|Hkp]; [|now destruct Hkp].
      split; [rewrite Hlog; cbn [map]; subst st'; cbn [logs with_logs];
              now rewrite <- app_assoc|].
      split; [|split; [|exact Hfr]].
      * intros k Hk Hkp. destruct (decide (k ∈ rest)) as [Hin|Hout].
        { now apply Hrem. }
        apply elem_of_cons in Hk as [->|Hk]; [|easy].
        rewrite Hkeep by now left. apply lookup_delete_eq.
      * intros k Hk.
        assert (Hkk : k <> key).
        { destruct Hk as [Hk| ->]; [|congruence].
          intros ->. apply Hk. now left. }
        rewrite Hkeep.
        -- subst st'. cbn [localStorage with_logs with_localStorage].
           now apply lookup_delete_ne.
        -- destruct Hk as [Hk| ->]; [left | now right].
           intros Hin. apply Hk. now right.
Qed.

Lemma cleanStorageByPriority_run `{!KeyOrderLaws K} p now (st : State U) :
  cleanStorageByPriority p now st
  = clean_each (sort_by (stored_length (localStorage st))
                  (Object_keys (localStorage st))) p now st.
Proof.
  unfold cleanStorageByPriority. unfold bind, gets.
  replace (forallb _ _) with true; [reflexivity|].
  symmetry. apply forallb_forall. intros k Hk.
  apply bool_decide_eq_true. apply keys_stored. now apply list_elem_of_In.
Qed.



(** ** The history *)

Lemma prop_of_entry {A} (o : gmap string A) key :
  inherited key = false ->
  prop_of o key = match o !! key with
                  | Some a => Some (Plain a)
                  | None => None
                  end.
Proof.
  intros Hin. pose proof (inherited_proto key Hin) as Hp.
  apply String.eqb_neq in Hp. unfold prop_of. now rewrite Hp, Hin.
Qed.

Lemma prop_of_inherited {A} (o : gmap string A) key :
  inherited key = true -> o !! key = None ->
  prop_of o key = Some (Member key).
Proof.
  intros Hin Hk. unfold prop_of. rewrite Hk, Hin.
  now destruct (String.eqb key "__proto__").
Qed.

Lemma setItemWithHistory_step key v now (p : Page U) :
  inherited key = false ->
  exists p1,
    state_of (setItemWithHistory key v now p) = Some p1
    /\ history p1 !! key
       = Some (default [] (history p !! key)
               ++ [{| entry_value := v; entry_timestamp := now |}])
    /\ (forall k, k <> key -> history p1 !! k = history p !! k)
    /\ sessionStorage p1 = sessionStorage p
    /\ state_of (setItem key v no_options now
                   (with_logs (fun g => g ++ [{| action := "setItemWithHistory";
                                                 details := key_value key v;
                                                 timestamp := now |}])
                      (closure p)))
       = Some (closure p1).
Proof.
  intros Hin.
  set (st0 := with_logs _ (closure p)).
  destruct (setItem_no_options key v now st0) as (t & u & _ & Hw).
  unfold setItemWithHistory, pbind, history_init, history_push, lift,
    logAction, modify.
  rewrite (prop_of_entry (history p) key Hin).
  destruct (history p !! key) as [l|] eqn:Eh.
  - rewrite (prop_of_entry (history p) key Hin), Eh.
    cbn [closure with_history with_closure]. fold st0.
    destruct Hw as [Hw|[e Hw]]; rewrite Hw; (eexists; split; [reflexivity|]);
      cbn [history sessionStorage closure with_closure with_history default];
      (split; [apply lookup_insert_eq|]);
      (split; [intros k Hk; now apply lookup_insert_ne|]);
      split; reflexivity.
  - rewrite (prop_of_entry _ key Hin). cbn [history with_history].
    rewrite lookup_insert_eq.
    cbn [closure with_history with_closure]. fold st0.
    destruct Hw as [Hw|[e Hw]]; rewrite Hw; (eexists; split; [reflexivity|]);
      cbn [history sessionStorage closure with_closure with_history default];
      (split; [apply lookup_insert_eq|]);
      (split; [intros k Hk; rewrite !lookup_insert_ne by congruence;
               reflexivity|]);
      split; reflexivity.
Qed.

Lemma getHistory_entries key now (q : Page U) :
  inherited key = false ->
  result_of (getHistory key now q)
  = Some (Plain (default [] (history q !! key))).
Proof.
  intros Hin. unfold getHistory, pbind, lift, logAction, modify, pgets.
  cbn [result_of history with_closure].
  rewrite (prop_of_entry (history q) key Hin).
  now destruct (history q !! key).
Qed.

(** [X17] The history of a key that is not a name every object inherits
    is the sequence of its writes through [setItemWithHistory], oldest
    first, each with the reading of the clock at its call: after the
    writes [ws], [getHistory] returns what it returned before followed by
    one entry for each of them, in the order of the calls; the history of
    another key is not touched. *)
Theorem history_in_call_order key ws now (p : Page U) :
  inherited key = false ->
  result_of (getHistory key now (history_writes key ws p))
  = Some (Plain (default [] (history p !! key) ++ entries_of ws))
  /\ forall k, k <> key ->
               history (history_writes key ws p) !! k = history p !! k.
Proof.
  intros Hin. rewrite (getHistory_entries key now _ Hin). revert p.
  induction ws as [|[v t] ws IH]; intros p.
  - cbn [history_writes entries_of map]. now rewrite app_nil_r.
  - cbn [history_writes].
    destruct (setItemWithHistory_step key v t p Hin)
      as (p1 & Hst & Hk & Hother & _).
    unfold after. rewrite Hst.
    destruct (IH p1) as [IH1 IH2]. split.
    + rewrite IH1. rewrite Hk. unfold entries_of. simpl.
      now rewrite <- app_assoc.
    + intros k Hne. rewrite IH2 by exact Hne. now apply Hother.
Qed.

(** [X18] Under a key that is not a name every object inherits, a write
    through [setItemWithHistory] is both stored and recorded, whether the
    subscribers of [set] completed or one of them threw: [getItem] returns
    the JSON value written, and its entry is the last of the key's
    history.  Under an inherited name ([toString], [constructor],
    [__proto__], ...) the call throws [TypeError] at the [push] and changes
    nothing: the value is neither recorded, nor logged, nor stored. *)
Theorem setItemWithHistory_stored_and_recorded `{!HostLaws H}
    key v now now' (p : Page U) :
  (inherited key = false ->
   json_value v = true ->
   exists p1,
     state_of (setItemWithHistory key v now p) = Some p1
     /\ result_of (lift (getItem key no_options now') p1) = Some v
     /\ result_of (getHistory key now' p1)
        = Some (Plain (default [] (history p !! key)
                       ++ [{| entry_value := v; entry_timestamp := now |}])))
  /\ (inherited key = true ->
      history p !! key = None ->
      setItemWithHistory key v now p = Throw TypeError p).
Proof.
  split.
  - intros Hin Hwf.
    destruct (setItemWithHistory_step key v now p Hin)
      as (p1 & Hst & Hk & _ & _ & Hcl).
    exists p1. split; [exact Hst|]. split.
    + unfold lift.
      rewrite (getItem_setItem_no_cipher key v no_options no_options now now'
                 _ (closure p1) Hwf eq_refl eq_refl eq_refl eq_refl Hcl).
      reflexivity.
    + rewrite (getHistory_entries key now' p1 Hin). now rewrite Hk.
  - intros Hin Hk.
    unfold setItemWithHistory, pbind, history_init, history_push.
    now rewrite !(prop_of_inherited (history p) key Hin Hk).
Qed.

(** ** The session store *)

(** [X19] A text copied to the session store can be put back: for a
    stored text that is not empty [copyFromLocalToSession] leaves a copy
    under the key in [sessionStorage] and the local store as it is, and
    on any later page that still has the copy, whatever became of the
    local store, [copyFromSessionToLocal] stores the text under the key
    again, touches no other key, and runs no subscriber. *)
Theorem session_copy_restores key t now (p : Page U) :
  localStorage (closure p) !! key = Some t ->
  t <> "" ->
  exists p1,
    copyFromLocalToSession key now p = Return tt p1
    /\ sessionStorage p1 !! key = Some t
    /\ localStorage (closure p1) = localStorage (closure p)
    /\ forall (p2 : Page U) now',
         sessionStorage p2 !! key = Some t ->
         exists p3,
           copyFromSessionToLocal key now' p2 = Return tt p3
           /\ localStorage (closure p3) !! key = Some t
           /\ (forall k, k <> key ->
                 localStorage (closure p3) !! k = localStorage (closure p2) !! k)
           /\ subscribers (closure p3) = subscribers (closure p2)
           /\ sessionStorage p3 = sessionStorage p2.
Proof.
  intros Hk Hne. apply String.eqb_neq in Hne.
  unfold copyFromLocalToSession. unfold pbind at 1. unfold lift at 1.
  unfold localStorage_getItem, gets. rewrite Hk. cbn [truthy]. rewrite Hne.
  cbn [negb ToString].
  eexists. split; [reflexivity|].
  split; [apply lookup_insert_eq|]. split; [reflexivity|].
  intros p2 now' Hs.
  unfold copyFromSessionToLocal. unfold pbind at 1. unfold pgets.
  rewrite Hs. cbn [truthy]. rewrite Hne. cbn [negb].
  eexists. split; [reflexivity|].
  split; [apply lookup_insert_eq|].
  split; [intros k Hkk; now apply lookup_insert_ne|].
  split; reflexivity.
Qed.

(** ** The two listings *)

(** [X20] The second listing is the first without its action log: for
    [setItem], [getItem], [removeItem], [clearStorage], [setItemWithCache],
    [getItemWithCache] and [setItemWithLimit], on states that differ in the
    log only, the two listings return the same value or throw the same
    exception, and leave states that differ in the log only. *)
Theorem second_listing_is_first_unlogged key v options limit now :
  unlogs (U:=U) (setItem key v options now)
    (SimpleStorageDirect.setItem key v options now)
  /\ unlogs (U:=U) (getItem key options now)
       (SimpleStorageDirect.getItem key options now)
  /\ unlogs (U:=U) (removeItem key now) (SimpleStorageDirect.removeItem key)
  /\ unlogs (U:=U) (clearStorage now) SimpleStorageDirect.clearStorage
  /\ unlogs (U:=U) (setItemWithCache key v now)
       (SimpleStorageDirect.setItemWithCache key v)
  /\ unlogs (U:=U) (getItemWithCache key now)
       (SimpleStorageDirect.getItemWithCache key now)
  /\ unlogs (U:=U) (setItemWithLimit key v limit now)
       (SimpleStorageDirect.setItemWithLimit key v limit).
Proof.
  split; [apply unlogs_setItem|]. split; [apply unlogs_getItem|].
  split; [apply unlogs_removeItem|]. split; [apply unlogs_clearStorage|].
  split; [apply unlogs_setItemWithCache|].
  split; [apply unlogs_getItemWithCache | apply unlogs_setItemWithLimit].
Qed.

End Rest.

(** * The properties on a run of the module *)

#[local] Existing Instance Run.host.

Lemma run_host_laws : HostLaws Run.host.
Proof. split. reflexivity. Qed.

(** The README's call. *)
Lemma setItem_encrypt_throws_readme :
  truthy (encrypt Run.readme_write) = true
  /\ truthy (secret Run.readme_write) = true
  /\ setItem "user" Run.alice Run.readme_write 1000 Run.fresh
     = Throw TypeError Run.fresh
  /\ SimpleStorageDirect.setItem "user" Run.alice Run.readme_write 1000 Run.fresh
     = Throw TypeError Run.fresh
  /\ (localStorage Run.fresh !! "user" = None ->
      getItem "user" Run.readme_read 1001 Run.fresh = Return VNull Run.fresh).
Proof.
  split; [reflexivity|]. split; [reflexivity|].
  apply (setItem_encrypt_throws "user" Run.alice Run.readme_write
           Run.readme_read 1000 1001 Run.fresh); reflexivity.
Defined.

(** [C2] as stated fails: written with [expiry = 0] and read at once, the
    value comes back, not [null]. *)
Lemma expiry_zero_read_returns_value :
  result_of ((setItem "k" (VNum 1) (Run.expires_in 0) 1000 ;;
              getItem "k" no_options 1000) Run.fresh)
  = Some (VNum 1).
Proof. vm_compute. reflexivity. Qed.

Lemma expiry_boundary_run :
  json_value Run.alice = true
  /\ 0 <= 1000
  /\ exists st0 st1,
      state_of (setItem "k" Run.alice (Run.expires_in 0) 1000 Run.fresh)
      = Some st0
      /\ state_of (setItem "k" Run.alice (Run.expires_in 10000) 1000 Run.fresh)
         = Some st1
      /\ (forall t, getItem "k" no_options t st0 = Return Run.alice st0)
      /\ getItem "k" no_options (1000 + 9999) st1 = Return Run.alice st1
      /\ (forall t, t <= 1000 + 10000 ->
            getItem "k" no_options t st1 = Return Run.alice st1)
      /\ localStorage
           (after (getItem "k" no_options (1000 + 10001) st1) st1) !! "k" = None
      /\ (forall t, 1000 + 10000 < t ->
            getItem "k" no_options t st1
            = Return VNull
                (with_logs (fun l => l ++ [{| action := "remove";
                                              details := key_only "k";
                                              timestamp := t |}])
                   (with_localStorage (delete "k") st1))).
Proof.
  split; [reflexivity|]. split; [lia|].
  apply (expiry_boundary "k" Run.alice 1000 Run.fresh); [reflexivity | lia].
Defined.

(** [C3] as stated fails: on a key that holds an item written by [setItem]
    (an object, not an array) the call throws and stores nothing; and at
    limit 0 one element is stored. *)
Lemma setItemWithLimit_not_array_throws :
  thrown_of ((setItem "k" (VNum 1) no_options 0 ;;
              setItemWithLimit "k" (VNum 2) 2 1) Run.fresh)
  = Some TypeError
  /\ (state_of (setItemWithLimit "k" (VNum 1) 0 0 Run.fresh)
        ≫= fun s => localStorage s !! "k") = Some "[1]".
Proof. split; vm_compute; reflexivity. Qed.

Lemma setItemWithLimit_fifo_run :
  reads_as_items (localStorage Run.fresh !! "k") []
  /\ json_value (VNum 1) = true /\ json_value (VNum 2) = true
  /\ json_value (VNum 3) = true
  /\ (exists t',
        JSON.stringify
          (VArr ((if (2 <=? Z.of_nat (length (@nil value)))%Z
                  then tl [] else []) ++ [VNum 1])) = Some t'
        /\ setItemWithLimit "k" (VNum 1) 2 0 Run.fresh
           = Return tt
               (with_logs (fun g => g ++ [{| action := "setItemWithLimit";
                                             details := key_value "k" (VNum 1);
                                             timestamp := 0 |}])
                  (with_localStorage (insert "k" t') Run.fresh)))
  /\ (Z.of_nat (length (@nil value)) <= 2 -> 1 <= 2 ->
      Z.of_nat (length ((if (2 <=? Z.of_nat (length (@nil value)))%Z
                         then tl [] else []) ++ [VNum 1])) <= 2)
  /\ (@nil value = [] ->
      exists st3,
        (setItemWithLimit "k" (VNum 1) 2 0 ;;
         setItemWithLimit "k" (VNum 2) 2 0 ;;
         setItemWithLimit "k" (VNum 3) 2 0) Run.fresh = Return tt st3
        /\ Some <$> localStorage st3 !! "k"
           = Some (JSON.stringify (VArr [VNum 2; VNum 3]))).
Proof.
  split; [reflexivity|]. do 3 (split; [reflexivity|]).
  apply (setItemWithLimit_fifo "k" (VNum 1) (VNum 2) (VNum 3) 2 0 Run.fresh []);
    reflexivity.
Defined.

(** [C4] as stated fails: the second subscriber never runs when the first
    one throws. *)
Lemma triggerEvent_stops_at_throw :
  let run := (on "set" (Run.boom "first") ;;
              on "set" (Run.note "second") ;;
              triggerEvent "set" (VObj [])) Run.fresh in
  thrown_of run = Some (Thrown (VStr "first"))
  /\ subscribers <$> state_of run = Some ["first"].
Proof. split; vm_compute; reflexivity. Qed.

Lemma triggerEvent_in_order_run :
  listeners_of (eventListeners Run.subscribed) "set"
  = Some ([Run.note "a"] ++ Run.boom "b" :: [Run.note "c"])
  /\ completes [Run.note "a"] VNull (subscribers Run.subscribed) = Some ["a"]
  /\ (forall e u', Run.boom "b" VNull ["a"] = Abrupt e u' ->
        triggerEvent "set" VNull Run.subscribed
        = Throw e (with_subscribers u' Run.subscribed))
  /\ (forall u1 u2, Run.boom "b" VNull ["a"] = Normal u1 ->
        completes [Run.note "c"] VNull u1 = Some u2 ->
        triggerEvent "set" VNull Run.subscribed
        = Return tt (with_subscribers u2 Run.subscribed))
  /\ (forall cb' st', state_of (on "set" cb' Run.subscribed) = Some st' ->
        listeners_of (eventListeners st') "set"
        = Some (([Run.note "a"] ++ Run.boom "b" :: [Run.note "c"]) ++ [cb'])).
Proof.
  split; [reflexivity|]. split; [reflexivity|].
  apply (triggerEvent_in_order "set" VNull Run.subscribed
           [Run.note "a"] (Run.boom "b") [Run.note "c"] ["a"]); reflexivity.
Defined.

(** [C5] as stated fails: [on] throws for a name that is not an event. *)
Lemma register_update_throws :
  on "update" (Run.note "x") Run.fresh = Throw TypeError Run.fresh.
Proof. reflexivity. Qed.

Lemma on_unknown_event_run :
  "update" <> "set" /\ "update" <> "remove" /\ "update" <> "clear"
  /\ on "update" (Run.note "x") Run.fresh = Throw TypeError Run.fresh.
Proof.
  do 3 (split; [discriminate|]).
  apply (on_unknown_event "update" (Run.note "x") Run.fresh); discriminate.
Defined.

(** [C6] as stated fails: a stored text that is not JSON makes [getItem]
    throw, where a missing key gives [null]. *)
Lemma getItem_invalid_text_throws :
  getItem "k" no_options 0 Run.garbled = Throw SyntaxError Run.garbled
  /\ getItem "k" no_options 0 Run.fresh = Return VNull Run.fresh.
Proof. split; reflexivity. Qed.

(** Nothing stored, the empty text, the text of an array, a text that is
    not JSON, and an item read with the secret it was sealed with and with
    another. *)
Lemma getItem_absent_or_invalid_run :
  getItem "k" no_options 0 Run.fresh = Return VNull Run.fresh
  /\ getItem "k" no_options 0 RunRest.blank = Return VNull RunRest.blank
  /\ getItem "mid" no_options 0 RunRest.crowded = Return VNull RunRest.crowded
  /\ (getItem "k" no_options 0 Run.garbled = Throw SyntaxError Run.garbled
      /\ SimpleStorageDirect.getItem "k" no_options 0 Run.garbled
         = Throw SyntaxError Run.garbled)
  /\ getItem "k" (RunRest.with_secret "key") 0 (RunRest.sealed "key")
     = Return VNull (RunRest.sealed "key")
  /\ getItem "k" (RunRest.with_secret "other") 0 (RunRest.sealed "key")
     = Throw (Thrown (VStr "Malformed UTF-8 data")) (RunRest.sealed "key").
Proof.
  split.
  { destruct (getItem_absent_or_invalid "k" no_options 0 Run.fresh)
      as (Habsent & _).
    apply Habsent. reflexivity. }
  split.
  { destruct (getItem_absent_or_invalid "k" no_options 0 RunRest.blank)
      as (_ & Hempty & _).
    apply Hempty. reflexivity. }
  split.
  { destruct (getItem_absent_or_invalid "mid" no_options 0 RunRest.crowded)
      as (_ & _ & Hplain & _).
    apply (Hplain "[1,2]" (VArr [VNum 1; VNum 2])); [reflexivity ..|].
    right. repeat split. }
  split.
  { destruct (getItem_absent_or_invalid "k" no_options 0 Run.garbled)
      as (_ & _ & _ & Hbad & _).
    apply (Hbad "hello"); [discriminate | reflexivity | reflexivity]. }
  split.
  - destruct (getItem_absent_or_invalid "k" (RunRest.with_secret "key") 0
                (RunRest.sealed "key")) as (_ & _ & _ & _ & Hsecret).
    destruct (Hsecret
                (match JSON.stringify
                         (VObj [("value", VStr "key"); ("expiry", VNull)]) with
                 | Some t => t
                 | None => ""
                 end) "key" "key" VNull) as [Hnull _];
      [reflexivity .. | discriminate |].
    apply Hnull. reflexivity.
  - destruct (getItem_absent_or_invalid "k" (RunRest.with_secret "other") 0
                (RunRest.sealed "key")) as (_ & _ & _ & _ & Hsecret).
    destruct (Hsecret
                (match JSON.stringify
                         (VObj [("value", VStr "key"); ("expiry", VNull)]) with
                 | Some t => t
                 | None => ""
                 end) "key" "other" VNull) as [_ Hthrow];
      [reflexivity .. | discriminate |].
    apply Hthrow. reflexivity.
Defined.

(** [C7] as stated fails for [v1 = false]: after the removal the cache
    entry is skipped and the read of the store gives [null]. *)
Lemma cache_false_lost_after_removal :
  result_of ((setItemWithCache "k" (VBool false) 0 ;;
              removeItem "k" 1 ;;
              getItemWithCache "k" 2) Run.fresh)
  = Some (Plain VNull).
Proof. vm_compute. reflexivity. Qed.

Lemma cache_survives_removal_run :
  "k" <> "__proto__"
  /\ truthy (VNum 7) = true
  /\ exists st1 st2 st2',
      state_of (setItemWithCache "k" (VNum 7) 0 Run.fresh) = Some st1
      /\ state_of (removeItem "k" 1 st1) = Some st2
      /\ state_of (clearStorage 1 st1) = Some st2'
      /\ memoryCache st2 = memoryCache st1
      /\ memoryCache st2' = memoryCache st1
      /\ localStorage st2 !! "k" = None
      /\ result_of (getItemWithCache "k" 2 st2) = Some (Plain (VNum 7))
      /\ result_of (getItemWithCache "k" 2 st2') = Some (Plain (VNum 7)).
Proof.
  split; [discriminate|]. split; [reflexivity|].
  apply (cache_survives_removal "k" (VNum 7) 0 1 2 Run.fresh);
    [discriminate | reflexivity].
Defined.

(** [C8] as stated fails on the listing with the action log: the key holds
    the text of an item, not the value's own text. *)
Lemma setItemWithSync_writes_item :
  (state_of (setItemWithSync "k" (VNum 1) 0 Run.fresh)
     ≫= fun s => localStorage s !! "k")
  = JSON.stringify (VObj [("value", VStr "1"); ("expiry", VNull)])
  /\ (state_of (setItemWithSync "k" (VNum 1) 0 Run.fresh)
        ≫= fun s => localStorage s !! "k") <> Some "1"
  /\ (state_of (SimpleStorageDirect.setItemWithSync "k" (VNum 1) Run.fresh)
        ≫= fun s => localStorage s !! "k") = Some "1".
Proof. repeat split; vm_compute; congruence. Qed.

(** A value that converts and one that does not in the second listing;
    subscribers that complete and one that throws in the first. *)
Lemma setItemWithSync_paths_run :
  stringable Run.alice = true
  /\ SimpleStorageDirect.setItemWithSync "k" Run.alice Run.fresh
     = Return tt
         (with_channel (fun q => q ++ [key_value "k" Run.alice])
            (with_localStorage (insert "k" "[object Object]")
               Run.fresh))
  /\ stringable RunRest.odd = false
  /\ SimpleStorageDirect.setItemWithSync "k" RunRest.odd Run.fresh
     = Throw TypeError Run.fresh
  /\ completes (set (eventListeners RunRest.listening))
       (key_value "k" (VNum 1)) (subscribers RunRest.listening)
     = Some ["a"; "b"]
  /\ (exists t,
        JSON.stringify (VObj [("value", serialize (VNum 1)); ("expiry", VNull)])
        = Some t
        /\ setItemWithSync "k" (VNum 1) 5 RunRest.listening
           = Return tt
               (with_channel (fun q => q ++ [key_value "k" (VNum 1)])
                  (with_subscribers ["a"; "b"]
                     (with_logs
                        (fun g => g ++ [{| action := "set";
                                           details := key_value "k" (VNum 1);
                                           timestamp := 5 |}])
                        (with_localStorage (insert "k" t) RunRest.listening)))))
  /\ set (eventListeners Run.subscribed)
     = [Run.note "a"] ++ Run.boom "b" :: [Run.note "c"]
  /\ (exists t,
        JSON.stringify (VObj [("value", serialize (VNum 1)); ("expiry", VNull)])
        = Some t
        /\ setItemWithSync "k" (VNum 1) 5 Run.subscribed
           = Throw (Thrown (VStr "b"))
               (with_subscribers ["a"; "b"]
                  (with_logs
                     (fun g => g ++ [{| action := "set";
                                        details := key_value "k" (VNum 1);
                                        timestamp := 5 |}])
                     (with_localStorage (insert "k" t) Run.subscribed)))).
Proof.
  split; [reflexivity|].
  split.
  { destruct (setItemWithSync_paths "k" Run.alice 0 Run.fresh)
      as (Hdirect & _).
    apply Hdirect. reflexivity. }
  split; [reflexivity|].
  split.
  { destruct (setItemWithSync_paths "k" RunRest.odd 0 Run.fresh)
      as (_ & Hthrow & _).
    apply Hthrow. reflexivity. }
  split; [reflexivity|].
  split.
  { destruct (setItemWithSync_paths "k" (VNum 1) 5 RunRest.listening)
      as (_ & _ & t & Ht & Hrun & _).
    exists t. split; [exact Ht|]. apply Hrun. reflexivity. }
  split; [reflexivity|].
  destruct (setItemWithSync_paths "k" (VNum 1) 5 Run.subscribed)
    as (_ & _ & t & Ht & _ & Hstop).
  exists t. split; [exact Ht|].
  apply (Hstop [Run.note "a"] (Run.boom "b") [Run.note "c"] ["a"]);
    reflexivity.
Defined.




(** ** Runs of the rest of the module *)

Lemma run_cipher_laws : CipherLaws Run.host RunRest.cipher.
Proof.
  split.
  - intros salt d k. cbn [AES_decrypt_Utf8 AES_encrypt Run.host RunRest.cipher].
    induction k as [|a k IH]; [reflexivity|].
    rewrite JSONFacts.append_cons. cbn [JSON.strip_prefix].
    now rewrite Ascii.eqb_refl.
  - intros salt d k Hd. cbn [AES_encrypt RunRest.cipher].
    destruct k; [exact Hd | discriminate].
Qed.

Lemma run_key_order_laws : KeyOrderLaws RunRest.key_order.
Proof.
  split; cbn [Object_keys RunRest.key_order].
  - intros m. apply NoDup_fst_map_to_list.
  - intros m k. rewrite list_elem_of_fmap. split.
    + intros ([k' t] & -> & Hin). apply elem_of_map_to_list in Hin. eauto.
    + intros [t Ht]. exists (k, t). split; [reflexivity|].
      now apply elem_of_map_to_list.
Qed.

Lemma deserialize_serialize_run :
  json_value Run.alice = true
  /\ exists t, serialize Run.alice = VStr t /\ t <> ""
               /\ deserialize (VStr t) Run.fresh = Return Run.alice Run.fresh.
Proof.
  split; [reflexivity|].
  apply (deserialize_serialize Run.alice Run.fresh). reflexivity.
Defined.

Lemma decompressData_compressData_run :
  json_value (VNum 28) = true
  /\ exists c, compressData (VNum 28) Run.fresh = Return c Run.fresh
               /\ decompressData c Run.fresh = Return (VNum 28) Run.fresh.
Proof.
  split; [reflexivity|].
  apply (@decompressData_compressData _ Run.host run_host_laws
           (VNum 28) Run.fresh).
  reflexivity.
Defined.

(** Written compressed at 1000 for a minute, read at the deadline. *)
Lemma setItem_getItem_roundtrip_run :
  json_value Run.alice = true
  /\ 61000 <= 1000 + 60000
  /\ exists st1,
      state_of (setItem "user" Run.alice RunRest.compressed_write 1000
                  Run.written_10000) = Some st1
      /\ getItem "user" RunRest.compressed_read 61000 st1
         = Return Run.alice st1.
Proof.
  split; [reflexivity|]. split; [lia|].
  apply (@setItem_getItem_roundtrip _ Run.host run_host_laws
           "user" Run.alice RunRest.compressed_write RunRest.compressed_read
           1000 61000 Run.written_10000);
    [reflexivity | reflexivity | reflexivity | reflexivity |].
  right. exists 60000. split; [reflexivity | right; lia].
Defined.

Lemma getItem_reads_own_key_run :
  localStorage (with_localStorage (insert "other" "x") Run.written_10000) !! "k"
  = localStorage Run.written_10000 !! "k"
  /\ result_of (getItem "k" no_options 2000
                  (with_localStorage (insert "other" "x") Run.written_10000))
     = result_of (getItem "k" no_options 2000 Run.written_10000)
  /\ thrown_of (getItem "k" no_options 2000
                  (with_localStorage (insert "other" "x") Run.written_10000))
     = thrown_of (getItem "k" no_options 2000 Run.written_10000).
Proof.
  split; [reflexivity|].
  apply (getItem_reads_own_key "k" no_options 2000 Run.written_10000
           (with_localStorage (insert "other" "x") Run.written_10000)).
  reflexivity.
Defined.

(** A read after the deadline: the one change. *)
Lemma getItem_changes_only_expired_run :
  state_of (getItem "k" no_options 20000 Run.written_10000)
  = Some (expired_removed "k" 20000 Run.written_10000)
  /\ (expired_removed "k" 20000 Run.written_10000 = Run.written_10000
      \/ (expired_removed "k" 20000 Run.written_10000
          = with_logs (fun g => g ++ [{| action := "remove";
                                         details := key_only "k";
                                         timestamp := 20000 |}])
              (with_localStorage (delete "k") Run.written_10000)
          /\ getItem "k" no_options 20000 Run.written_10000
             = Return VNull (expired_removed "k" 20000 Run.written_10000)
          /\ is_Some (localStorage Run.written_10000 !! "k"))).
Proof.
  split; [reflexivity|].
  apply (getItem_changes_only_expired "k" no_options 20000 Run.written_10000
           (expired_removed "k" 20000 Run.written_10000)).
  reflexivity.
Defined.

Lemma writes_keep_other_keys_run :
  "long" <> "mid"
  /\ state_of (removeItem "mid" 5 RunRest.crowded)
     = Some (after (removeItem "mid" 5 RunRest.crowded) RunRest.crowded)
  /\ localStorage (after (removeItem "mid" 5 RunRest.crowded) RunRest.crowded)
       !! "long"
     = localStorage RunRest.crowded !! "long"
  /\ result_of (getItem "long" no_options 6
                  (after (removeItem "mid" 5 RunRest.crowded) RunRest.crowded))
     = result_of (getItem "long" no_options 6 RunRest.crowded)
  /\ thrown_of (getItem "long" no_options 6
                  (after (removeItem "mid" 5 RunRest.crowded) RunRest.crowded))
     = thrown_of (getItem "long" no_options 6 RunRest.crowded).
Proof.
  split; [discriminate|]. split; [reflexivity|].
  apply (writes_keep_other_keys "mid" "long" no_options 6 RunRest.crowded
           (after (removeItem "mid" 5 RunRest.crowded) RunRest.crowded));
    [discriminate|].
  right. left. exists 5. reflexivity.
Defined.

(** Three subscribers of [set], the second throws. *)
Lemma setItem_throwing_subscriber_run :
  json_value Run.alice = true
  /\ set (eventListeners Run.subscribed)
     = [Run.note "a"] ++ Run.boom "b" :: [Run.note "c"]
  /\ completes [Run.note "a"] (key_value "k" Run.alice)
       (subscribers Run.subscribed) = Some ["a"]
  /\ Run.boom "b" (key_value "k" Run.alice) ["a"]
     = Abrupt (Thrown (VStr "b")) ["a"; "b"]
  /\ exists st1,
      setItem "k" Run.alice no_options 1 Run.subscribed
      = Throw (Thrown (VStr "b")) st1
      /\ subscribers st1 = ["a"; "b"]
      /\ getItem "k" no_options 2 st1 = Return Run.alice st1.
Proof.
  split; [reflexivity|]. split; [reflexivity|]. split; [reflexivity|].
  split; [reflexivity|].
  apply (setItem_throwing_subscriber "k" Run.alice 1 2 Run.subscribed
           [Run.note "a"] (Run.boom "b") [Run.note "c"] ["a"]
           (Thrown (VStr "b")) ["a"; "b"]); reflexivity.
Defined.

Lemma plain_writes_read_null_run :
  json_value Run.alice = true
  /\ get_prop Run.alice "expiry" = VUndefined
  /\ get_prop Run.alice "value" = VUndefined
  /\ inherited "k" = false
  /\ (exists st1,
        state_of (setItemWithCache "k" Run.alice 1 Run.fresh) = Some st1
        /\ getItem "k" no_options 2 st1 = Return VNull st1
        /\ result_of (getItemWithCache "k" 2
                        (with_memoryCache (fun _ => ∅) st1))
           = Some (Plain VNull))
  /\ (localStorage Run.fresh !! "k" = None ->
      exists st2,
        setItemWithLimit "k" Run.alice 3 1 Run.fresh = Return tt st2
        /\ getItem "k" no_options 2 st2 = Return VNull st2).
Proof.
  split; [reflexivity|]. split; [reflexivity|]. split; [reflexivity|].
  split; [reflexivity|].
  destruct (plain_writes_read_null "k" Run.alice 3 1 2 Run.fresh)
    as [Hcache Hlimit]; [reflexivity ..|].
  split; [apply Hcache; reflexivity | exact Hlimit].
Defined.

(** An object with no [toString] of its own, and one with. *)
Lemma synced_object_unreadable_run :
  assoc "toString" [("name", VStr "Alice"); ("age", VNum 28)] = None
  /\ (exists st1,
        SimpleStorageDirect.setItemWithSync "user"
          (VObj [("name", VStr "Alice"); ("age", VNum 28)]) Run.fresh
        = Return tt st1
        /\ localStorage st1 !! "user" = Some "[object Object]"
        /\ channel st1
           = channel Run.fresh
             ++ [key_value "user"
                   (VObj [("name", VStr "Alice"); ("age", VNum 28)])]
        /\ getItem "user" no_options 1 st1 = Throw SyntaxError st1
        /\ SimpleStorageDirect.getItem "user" no_options 1 st1
           = Throw SyntaxError st1)
  /\ assoc "toString" [("toString", VNum 1)] <> None
  /\ SimpleStorageDirect.setItemWithSync "user" (VObj [("toString", VNum 1)])
       Run.fresh
     = Throw TypeError Run.fresh.
Proof.
  split; [reflexivity|].
  split.
  { destruct (synced_object_unreadable "user"
                [("name", VStr "Alice"); ("age", VNum 28)] no_options 1
                Run.fresh) as [Hstored _].
    apply Hstored. reflexivity. }
  split; [discriminate|].
  destruct (synced_object_unreadable "user" [("toString", VNum 1)]
              no_options 1 Run.fresh) as [_ Hthrow].
  apply Hthrow. discriminate.
Defined.

(** A write through [setItem] over a cached key: the cache keeps the old
    value. *)
Lemma cache_written_only_by_setItemWithCache_run :
  state_of (setItem "k" (VNum 2) no_options 5 (Run.cached (VNum 1)))
  = Some (after (setItem "k" (VNum 2) no_options 5 (Run.cached (VNum 1)))
            (Run.cached (VNum 1)))
  /\ memoryCache (after (setItem "k" (VNum 2) no_options 5 (Run.cached (VNum 1)))
                    (Run.cached (VNum 1)))
     = memoryCache (Run.cached (VNum 1)).
Proof.
  split; [reflexivity|].
  apply (cache_written_only_by_setItemWithCache "k" (Run.cached (VNum 1))
           (after (setItem "k" (VNum 2) no_options 5 (Run.cached (VNum 1)))
              (Run.cached (VNum 1)))).
  left. exists (VNum 2), no_options, 5. reflexivity.
Defined.

Lemma getItemDecrypted_setItemEncrypted_run :
  json_value Run.alice = true
  /\ exists st1,
      state_of (SimpleStorageRest.setItemEncrypted (C:=RunRest.cipher)
                  "user" Run.alice (VStr "mySecret") "salt" 1 Run.fresh)
      = Some st1
      /\ result_of (SimpleStorageRest.getItemDecrypted
                      "user" (VStr "mySecret") 2 st1)
         = Some Run.alice.
Proof.
  split; [reflexivity|].
  apply (@getItemDecrypted_setItemEncrypted _ Run.host RunRest.cipher
           run_cipher_laws "user" Run.alice "mySecret" "salt" 1 2 Run.fresh).
  reflexivity.
Defined.



(** A number synced from one tab to another with a subscriber of [set];
    an object with a [toString] of its own. *)
Lemma direct_onmessage_applies_sync_run :
  stringable (VNum 7) = true
  /\ (exists sa1 sb1,
        SimpleStorageDirect.setItemWithSync "k" (VNum 7) Run.fresh
        = Return tt sa1
        /\ localStorage sa1 !! "k" = Some (ToString (VNum 7))
        /\ channel sa1 = channel Run.fresh ++ [key_value "k" (VNum 7)]
        /\ subscribers sa1 = subscribers Run.fresh
        /\ state_of (SimpleStorageDirectRest.onmessage
                       (key_value "k" (VNum 7)) RunRest.listening)
           = Some sb1
        /\ localStorage sb1 !! "k" = Some (ToString (VNum 7))
        /\ channel sb1 = channel RunRest.listening
        /\ (forall u,
               completes (set (eventListeners RunRest.listening))
                 (key_value "k" (VNum 7)) (subscribers RunRest.listening)
               = Some u ->
               subscribers sb1 = u))
  /\ stringable RunRest.odd = false
  /\ SimpleStorageDirect.setItemWithSync "k" RunRest.odd Run.fresh
     = Throw TypeError Run.fresh
  /\ SimpleStorageDirectRest.onmessage (key_value "k" RunRest.odd)
       RunRest.listening
     = Throw TypeError RunRest.listening.
Proof.
  split; [reflexivity|].
  split.
  { destruct (direct_onmessage_applies_sync "k" (VNum 7) Run.fresh
                RunRest.listening) as [Hsync _].
    apply Hsync. reflexivity. }
  split; [reflexivity|].
  destruct (direct_onmessage_applies_sync "k" RunRest.odd Run.fresh
              RunRest.listening) as [_ Hthrow].
  apply Hthrow. reflexivity.
Defined.

Lemma history_in_call_order_run :
  inherited "user" = false
  /\ result_of (SimpleStoragePage.getHistory "user" 30
                  (history_writes "user" [(VNum 1, 10); (VNum 2, 20)]
                     RunRest.page))
     = Some (Plain (default [] (history RunRest.page !! "user")
                    ++ entries_of [(VNum 1, 10); (VNum 2, 20)]))
  /\ forall k, k <> "user" ->
       history (history_writes "user" [(VNum 1, 10); (VNum 2, 20)]
                  RunRest.page) !! k
       = history RunRest.page !! k.
Proof.
  split; [reflexivity|].
  apply (history_in_call_order "user" [(VNum 1, 10); (VNum 2, 20)] 30
           RunRest.page).
  reflexivity.
Defined.

Lemma setItemWithHistory_stored_and_recorded_run :
  inherited "user" = false
  /\ json_value Run.alice = true
  /\ (exists p1,
        state_of (SimpleStoragePage.setItemWithHistory "user" Run.alice 1
                    RunRest.page) = Some p1
        /\ result_of (lift (getItem "user" no_options 2) p1) = Some Run.alice
        /\ result_of (SimpleStoragePage.getHistory "user" 2 p1)
           = Some (Plain (default [] (history RunRest.page !! "user")
                          ++ [{| entry_value := Run.alice;
                                 entry_timestamp := 1 |}])))
  /\ inherited "toString" = true
  /\ history RunRest.page !! "toString" = None
  /\ SimpleStoragePage.setItemWithHistory "toString" Run.alice 1 RunRest.page
     = Throw TypeError RunRest.page.
Proof.
  split; [reflexivity|]. split; [reflexivity|].
  split.
  { destruct (@setItemWithHistory_stored_and_recorded _ Run.host run_host_laws
                "user" Run.alice 1 2 RunRest.page) as [Hstored _].
    apply Hstored; reflexivity. }
  split; [reflexivity|]. split; [reflexivity|].
  destruct (@setItemWithHistory_stored_and_recorded _ Run.host run_host_laws
              "toString" Run.alice 1 2 RunRest.page) as [_ Hthrow].
  apply Hthrow; reflexivity.
Defined.

Lemma session_copy_restores_run :
  localStorage (closure RunRest.crowded_page) !! "mid" = Some "[1,2]"
  /\ "[1,2]" <> ""
  /\ exists p1,
      SimpleStoragePage.copyFromLocalToSession "mid" 1 RunRest.crowded_page
      = Return tt p1
      /\ sessionStorage p1 !! "mid" = Some "[1,2]"
      /\ localStorage (closure p1) = localStorage (closure RunRest.crowded_page)
      /\ forall (p2 : Page (list string)) now',
           sessionStorage p2 !! "mid" = Some "[1,2]" ->
           exists p3,
             SimpleStoragePage.copyFromSessionToLocal "mid" now' p2
             = Return tt p3
             /\ localStorage (closure p3) !! "mid" = Some "[1,2]"
             /\ (forall k, k <> "mid" ->
                   localStorage (closure p3) !! k
                   = localStorage (closure p2) !! k)
             /\ subscribers (closure p3) = subscribers (closure p2)
             /\ sessionStorage p3 = sessionStorage p2.
Proof.
  split; [reflexivity|]. split; [discriminate|].
  apply (session_copy_restores "mid" "[1,2]" 1 RunRest.crowded_page);
    [reflexivity | discriminate].
Defined.
